(** * A shallow embedding of the Vision Transformer of [ViT_Model_demo.py]

    The Python program builds a ViT out of [torch.nn] modules.  Tensors are
    modelled as a shape together with an index function, every module as a
    record of its parameters with an [init] (the Python [__init__]) and a
    [forward], and every failure the Python code can raise as an [error]
    value.  Floating point numbers are idealised as real numbers.  The
    modules are in training mode, as they are after construction (the
    program never switches them to evaluation mode): the random masks of the
    dropout layers are an argument of every forward pass. *)

From Stdlib Require Import List Arith Bool Lia Reals Lra QArith Qreals Permutation.
From stdpp Require Import base list.
Import ListNotations.

Local Open Scope nat_scope.

(** ** Errors and the error monad *)

(** The exceptions that the Python code can raise. *)
Inductive error : Type :=
| ZeroDivisionError   (* Python integer division by zero *)
| ValueError          (* tuple unpacking of a shape, invalid dropout rate *)
| RuntimeError        (* torch shape mismatches *)
| EinopsError         (* einops pattern / shape mismatches *)
| KeyError            (* an einops layer on an input of another rank *)
| AttributeError.     (* lookup of a missing attribute *)

Inductive result (A : Type) : Type :=
| Ok (a : A)
| Err (e : error).
Arguments Ok {A} a.
Arguments Err {A} e.

Definition bind {A B} (c : result A) (k : A -> result B) : result B :=
  match c with
  | Ok a => k a
  | Err e => Err e
  end.

Notation "'let*' x ':=' c 'in' k" := (bind c (fun x => k))
  (at level 10, x pattern, c at level 100, k at level 200).

(** ** Tensors *)

(** A tensor is its shape and the element at every multi-index.  Only the
    elements at indices inside the shape are meaningful. *)
Record Tensor (A : Type) : Type := mkTensor {
  shape : list nat;
  data : list nat -> A
}.
Arguments mkTensor {A} shape data.
Arguments shape {A} t.
Arguments data {A} t idx.

(** [idx] addresses an element of a tensor of shape [s]. *)
Definition in_range (s idx : list nat) : Prop := Forall2 lt idx s.

(** Sum of [f 0 .. f (n-1)]. *)
Fixpoint rsum (n : nat) (f : nat -> R) : R :=
  match n with
  | O => 0%R
  | S n' => (rsum n' f + f n')%R
  end.

(** Broadcasting, as torch does it for an in-place operation [x += y]: the
    shape of [y] is aligned with the trailing dimensions of [x]; each of its
    dimensions must be equal to the one of [x] or be 1. *)
Fixpoint dims_expand (ys xs : list nat) : bool :=
  match ys, xs with
  | [], [] => true
  | d :: ys', x :: xs' => ((d =? x) || (d =? 1)) && dims_expand ys' xs'
  | _, _ => false
  end.

Definition broadcastable (ys xs : list nat) : bool :=
  (length ys <=? length xs)
  && dims_expand ys (skipn (length xs - length ys) xs).

Fixpoint bcast_dims (ys idx : list nat) : list nat :=
  match ys, idx with
  | d :: ys', i :: idx' => (if d =? 1 then 0 else i) :: bcast_dims ys' idx'
  | _, _ => []
  end.

(** The index of [y] that is read for the index [idx] of [x]. *)
Definition bcast_index (ys idx : list nat) : list nat :=
  bcast_dims ys (skipn (length idx - length ys) idx).

(** [x += y] *)
Definition iadd (x y : Tensor R) : result (Tensor R) :=
  if broadcastable (shape y) (shape x)
  then Ok (mkTensor (shape x)
             (fun idx => (data x idx + data y (bcast_index (shape y) idx))%R))
  else Err RuntimeError.

(** The values of the learned parameters: parameter slot, then index.  At
    construction they are what the initialisers of the modules put there
    (random draws, mostly); training (outside the program) may replace
    them. *)
Definition Params : Type := nat -> list nat -> R.

Definition shift {A : Type} (n : nat) (f : nat -> A) : nat -> A :=
  fun s => f (n + s).

(** The random draws of one forward pass: for every dropout layer that the
    pass goes through (numbered in the order of the calls), the entries
    that the layer keeps. *)
Definition Noise : Type := nat -> list nat -> bool.

(** ** The torch and einops operations the program uses *)

(** [nn.Linear(in_features, out_features)]: [y = x W^T + b] on the last
    axis. *)
Module Linear.
Record t : Type := mk {
  in_features : nat;
  out_features : nat;
  weight : Tensor R;   (* (out_features, in_features) *)
  bias : Tensor R      (* (out_features) *)
}.

Definition init (theta : Params) (i o : nat) : t :=
  {| in_features := i;
     out_features := o;
     weight := mkTensor [o; i] (theta 0);
     bias := mkTensor [o] (theta 1) |}.

Definition forward (l : t) (x : Tensor R) : result (Tensor R) :=
  match rev (shape x) with
  | [] => Err RuntimeError
  | k :: lead =>
      if k =? in_features l
      then Ok (mkTensor (rev lead ++ [out_features l])
                 (fun idx =>
                    let pre := removelast idx in
                    let o := List.last idx 0 in
                    (rsum (in_features l)
                       (fun i => data x (pre ++ [i]) * data (weight l) [o; i])
                     + data (bias l) [o])%R))
      else Err RuntimeError
  end.
End Linear.

(** [nn.Conv2d(in_channels, out_channels, kernel_size, stride)], no padding,
    no dilation, one group, on a batched (rank 4) input.  torch does not run
    a layer without input channels or without output channels to a result
    that can be used: it raises [RuntimeError] (without input channels at
    the latest when the result is concatenated); the model raises it
    here. *)
Module Conv2d.
Record t : Type := mk {
  in_channels : nat;
  out_channels : nat;
  kernel_size : nat;
  stride : nat;
  weight : Tensor R;   (* (out_channels, in_channels, k, k) *)
  bias : Tensor R      (* (out_channels) *)
}.

Definition init (theta : Params) (i o k s : nat) : t :=
  {| in_channels := i;
     out_channels := o;
     kernel_size := k;
     stride := s;
     weight := mkTensor [o; i; k; k] (theta 0);
     bias := mkTensor [o] (theta 1) |}.

(** Output length of one spatial axis of length [n]. *)
Definition out_len (c : t) (n : nat) : nat :=
  (n - kernel_size c) / stride c + 1.

Definition forward (c : t) (x : Tensor R) : result (Tensor R) :=
  match shape x with
  | [b; ch; h; w] =>
      if negb (ch =? in_channels c) then Err RuntimeError
      else if (in_channels c =? 0) || (out_channels c =? 0) then Err RuntimeError
      else if stride c =? 0 then Err RuntimeError
      else if (h <? kernel_size c) || (w <? kernel_size c)
      then Err RuntimeError
      else
        Ok (mkTensor [b; out_channels c; out_len c h; out_len c w]
              (fun idx =>
                 match idx with
                 | [bi; e; i; j] =>
                     (data (bias c) [e]
                      + rsum (in_channels c) (fun ci =>
                          rsum (kernel_size c) (fun u =>
                            rsum (kernel_size c) (fun v =>
                              data (weight c) [e; ci; u; v]
                              * data x [bi; ci; (i * stride c + u)%nat;
                                        (j * stride c + v)%nat]))))%R
                 | _ => 0%R
                 end))
  | _ => Err RuntimeError
  end.
End Conv2d.

(** [nn.LayerNorm(normalized_shape)] over the last axis, with the default
    [eps = 1e-5] and the biased variance. *)
Module LayerNorm.
Record t : Type := mk {
  normalized_shape : nat;
  eps : R;
  weight : Tensor R;   (* (normalized_shape) *)
  bias : Tensor R      (* (normalized_shape) *)
}.

Definition init (theta : Params) (n : nat) : t :=
  {| normalized_shape := n;
     eps := (/ 100000)%R;
     weight := mkTensor [n] (theta 0);
     bias := mkTensor [n] (theta 1) |}.

Definition mean (n : nat) (row : nat -> R) : R := (rsum n row / INR n)%R.

Definition var (n : nat) (row : nat -> R) : R :=
  (rsum n (fun i => (row i - mean n row) * (row i - mean n row)) / INR n)%R.

Definition forward (l : t) (x : Tensor R) : result (Tensor R) :=
  match rev (shape x) with
  | [] => Err RuntimeError
  | k :: _ =>
      if k =? normalized_shape l
      then Ok (mkTensor (shape x)
                 (fun idx =>
                    let pre := removelast idx in
                    let e := List.last idx 0 in
                    let row := fun i => data x (pre ++ [i]) in
                    ((row e - mean k row) / sqrt (var k row + eps l)
                     * data (weight l) [e] + data (bias l) [e])%R))
      else Err RuntimeError
  end.
End LayerNorm.

(** [nn.Dropout(p)].  The rate is validated at construction.  In training
    mode the layer returns its input for the rate 0 and zeros for the rate
    1; for a rate between, it keeps the entries of the mask drawn for the
    call, divided by [1 - p], and zeroes the others. *)
Module Dropout.
Record t : Type := mk { p : Q }.

Definition valid_rate (rate : Q) : bool := Qle_bool 0 rate && Qle_bool rate 1.

Definition init (rate : Q) : result t :=
  if valid_rate rate then Ok {| p := rate |} else Err ValueError.

Definition forward (d : t) (keep : list nat -> bool) (x : Tensor R)
  : result (Tensor R) :=
  if Qeq_bool (p d) 0 then Ok x
  else if Qeq_bool (p d) 1
  then Ok (mkTensor (shape x) (fun _ => 0%R))
  else Ok (mkTensor (shape x)
             (fun idx =>
                if keep idx then (data x idx * / (1 - Q2R (p d)))%R else 0%R)).
End Dropout.

(** [F.softmax(x, dim=-1)] *)
Definition softmax (x : Tensor R) : Tensor R :=
  mkTensor (shape x)
    (fun idx =>
       let pre := removelast idx in
       let n := List.last (shape x) 0 in
       (exp (data x idx) / rsum n (fun j => exp (data x (pre ++ [j]))))%R).

(** [x / c] for a scalar [c] *)
Definition div_scalar (x : Tensor R) (c : R) : Tensor R :=
  mkTensor (shape x) (fun idx => (data x idx / c)%R).

(** [nn.GELU()].  The scalar function [x * Phi(x)] of the tensor library is
    taken as a parameter [fn]; the module applies it to every element. *)
Module GELU.
Record t : Type := mk { fn : R -> R }.

Definition forward (g : t) (x : Tensor R) : result (Tensor R) :=
  Ok (mkTensor (shape x) (fun idx => fn g (data x idx))).
End GELU.

(** [t[i]]: indexing along the first axis. *)
Definition select {A} (i : nat) (x : Tensor A) : Tensor A :=
  mkTensor (tl (shape x)) (fun idx => data x (i :: idx)).

(** The layer [Rearrange('b e (h) (w) -> b (h w) e')]; an einops layer looks
    its recipe up by the rank of the input. *)
Definition rearrange_b_e_h_w (x : Tensor R) : result (Tensor R) :=
  match shape x with
  | [b; e; h; w] =>
      Ok (mkTensor [b; h * w; e]
            (fun idx =>
               match idx with
               | [bi; t; ei] => data x [bi; ei; t / w; t mod w]
               | _ => 0%R
               end))
  | _ => Err KeyError
  end.

(** [repeat(x, '() n e -> b n e', b=b)] *)
Definition repeat_b_n_e (x : Tensor R) (b : nat) : result (Tensor R) :=
  match shape x with
  | [1; n; e] =>
      Ok (mkTensor [b; n; e]
            (fun idx =>
               match idx with
               | [bi; ni; ei] => data x [0; ni; ei]
               | _ => 0%R
               end))
  | _ => Err EinopsError
  end.

(** [torch.cat([x, y], dim=1)] on rank 3 tensors *)
Definition cat_dim1 (x y : Tensor R) : result (Tensor R) :=
  match shape x, shape y with
  | [b; n; e], [b'; n'; e'] =>
      if (b =? b') && (e =? e')
      then Ok (mkTensor [b; n + n'; e]
                 (fun idx =>
                    match idx with
                    | [bi; t; ei] =>
                        if t <? n then data x [bi; t; ei]
                        else data y [bi; t - n; ei]
                    | _ => 0%R
                    end))
      else Err RuntimeError
  | _, _ => Err RuntimeError
  end.

(** [rearrange(x, "b n (h d qkv) -> (qkv) b h n d", h=h, qkv=3)]: the
    length of the last axis has to be a multiple of the product [h * 3] of
    the known factors; einops computes the remainder before it divides. *)
Definition rearrange_qkv (x : Tensor R) (h : nat) : result (Tensor R) :=
  match shape x with
  | [b; n; l] =>
      if h * 3 =? 0 then Err ZeroDivisionError
      else if negb (l mod (h * 3) =? 0) then Err EinopsError
      else
        let d := l / (h * 3) in
        Ok (mkTensor [3; b; h; n; d]
              (fun idx =>
                 match idx with
                 | [r; bi; hi; ni; di] => data x [bi; ni; (hi * d + di) * 3 + r]
                 | _ => 0%R
                 end))
  | _ => Err EinopsError
  end.

(** [torch.einsum('bhqd, bhkd -> bhqk', x, y)] *)
Definition einsum_bhqd_bhkd (x y : Tensor R) : result (Tensor R) :=
  match shape x, shape y with
  | [b; h; q; d], [b'; h'; k; d'] =>
      if (b =? b') && (h =? h') && (d =? d')
      then Ok (mkTensor [b; h; q; k]
                 (fun idx =>
                    match idx with
                    | [bi; hi; qi; ki] =>
                        rsum d (fun di =>
                          (data x [bi; hi; qi; di] * data y [bi; hi; ki; di])%R)
                    | _ => 0%R
                    end))
      else Err RuntimeError
  | _, _ => Err RuntimeError
  end.

(** [torch.einsum('bhal, bhlv -> bhav ', x, y)] *)
Definition einsum_bhal_bhlv (x y : Tensor R) : result (Tensor R) :=
  match shape x, shape y with
  | [b; h; a; l], [b'; h'; l'; v] =>
      if (b =? b') && (h =? h') && (l =? l')
      then Ok (mkTensor [b; h; a; v]
                 (fun idx =>
                    match idx with
                    | [bi; hi; ai; vi] =>
                        rsum l (fun li =>
                          (data x [bi; hi; ai; li] * data y [bi; hi; li; vi])%R)
                    | _ => 0%R
                    end))
      else Err RuntimeError
  | _, _ => Err RuntimeError
  end.

(** [rearrange(x, "b h n d -> b n (h d)")] *)
Definition rearrange_b_h_n_d (x : Tensor R) : result (Tensor R) :=
  match shape x with
  | [b; h; n; d] =>
      Ok (mkTensor [b; n; h * d]
            (fun idx =>
               match idx with
               | [bi; ni; c] => data x [bi; c / d; ni; c mod d]
               | _ => 0%R
               end))
  | _ => Err EinopsError
  end.

(** The layer [Reduce('b n e -> b e', reduction='mean')] *)
Definition reduce_mean_b_n_e (x : Tensor R) : result (Tensor R) :=
  match shape x with
  | [b; n; e] =>
      Ok (mkTensor [b; e]
            (fun idx =>
               match idx with
               | [bi; ei] => (rsum n (fun t => data x [bi; t; ei]) / INR n)%R
               | _ => 0%R
               end))
  | _ => Err KeyError
  end.

(** [~mask] *)
Definition tensor_not (m : Tensor bool) : Tensor bool :=
  mkTensor (shape m) (fun idx => negb (data m idx)).

(** [torch.finfo(torch.float32).min] *)
Definition float32_min : R := (- ((2 - / 2 ^ 23) * 2 ^ 127))%R.

(** What an attribute [mask_fill] of a tensor does when it is called with a
    boolean tensor and a value; [None] when the tensor type has no attribute
    of that name. *)
Definition mask_fill_method : Type :=
  option (Tensor R -> Tensor bool -> R -> result (Tensor R)).

(** torch's [Tensor.masked_fill(mask, value)], for a mask that broadcasts to
    the shape of the tensor: a new tensor that holds [value] where [mask] is
    true; its argument is left as it is. *)
Definition masked_fill (x : Tensor R) (m : Tensor bool) (v : R)
  : result (Tensor R) :=
  if broadcastable (shape m) (shape x)
  then Ok (mkTensor (shape x)
             (fun idx =>
                if data m (bcast_index (shape m) idx) then v else data x idx))
  else Err RuntimeError.

(** The methods of [torch.Tensor]: there is [masked_fill], and nothing
    called [mask_fill]. *)
Definition torch_mask_fill : mask_fill_method := None.

(** ** The modules of [ViT_Model_demo.py] *)

Module PatchEmbedding.
Record t : Type := mk {
  patch_size : nat;
  projection : Conv2d.t;     (* followed by the Rearrange layer *)
  cls_token : Tensor R;      (* (1, 1, emb_size) *)
  positions : Tensor R       (* ((img_size // patch_size) ** 2 + 1, emb_size) *)
}.

(** [__init__]; the integer division raises when [patch_size] is 0. *)
Definition init (theta : Params) (in_channels patch_size emb_size img_size : nat)
  : result t :=
  let conv := Conv2d.init theta in_channels emb_size patch_size patch_size in
  let cls := mkTensor [1; 1; emb_size] (theta 2) in
  if patch_size =? 0 then Err ZeroDivisionError
  else
    Ok {| patch_size := patch_size;
          projection := conv;
          cls_token := cls;
          positions :=
            mkTensor [(img_size / patch_size) ^ 2 + 1; emb_size] (theta 3) |}.

Definition forward (p : t) (x : Tensor R) : result (Tensor R) :=
  match shape x with
  | [b; _; _; _] =>
      let* x := Conv2d.forward (projection p) x in
      let* x := rearrange_b_e_h_w x in
      let* cls_tokens := repeat_b_n_e (cls_token p) b in
      let* x := cat_dim1 cls_tokens x in
      iadd x (positions p)
  | _ => Err ValueError
  end.
End PatchEmbedding.

Module MultiHeadAttention.
Record t : Type := mk {
  emb_size : nat;
  num_heads : nat;
  qkv : Linear.t;
  att_drop : Dropout.t;
  projection : Linear.t
}.

Definition init (theta : Params) (emb_size num_heads : nat) (dropout : Q)
  : result t :=
  let* drop := Dropout.init dropout in
  Ok {| emb_size := emb_size;
        num_heads := num_heads;
        qkv := Linear.init theta emb_size (emb_size * 3);
        att_drop := drop;
        projection := Linear.init (shift 2 theta) emb_size emb_size |}.

(** Lines 66 to 73: queries, keys and values of every head, and the
    scores [energy]. *)
Definition scores (m : t) (x : Tensor R) : result (Tensor R * Tensor R) :=
  let* y := Linear.forward (qkv m) x in
  let* qkv := rearrange_qkv y (num_heads m) in
  let queries := select 0 qkv in
  let keys := select 1 qkv in
  let values := select 2 qkv in
  let* energy := einsum_bhqd_bhkd queries keys in
  Ok (energy, values).

(** Lines 76 to 78.  The call is a statement: what it returns is dropped,
    and [energy] stays bound to the same tensor. *)
Definition apply_mask (mask_fill : mask_fill_method) (energy : Tensor R)
    (mask : option (Tensor bool)) : result (Tensor R) :=
  match mask with
  | None => Ok energy
  | Some mask =>
      let fill_value := float32_min in
      match mask_fill with
      | None => Err AttributeError
      | Some method =>
          let* _ := method energy (tensor_not mask) fill_value in
          Ok energy
      end
  end.

(** Lines 66 to 84: the attention weights [att], with the values. *)
Definition attention (mask_fill : mask_fill_method) (omega : Noise) (m : t)
    (x : Tensor R) (mask : option (Tensor bool))
  : result (Tensor R * Tensor R) :=
  let* (energy, values) := scores m x in
  let* energy := apply_mask mask_fill energy mask in
  let scaling := sqrt (INR (emb_size m)) in
  let att := div_scalar (softmax energy) scaling in
  let* att := Dropout.forward (att_drop m) (omega 0) att in
  Ok (att, values).

Definition forward (mask_fill : mask_fill_method) (omega : Noise) (m : t)
    (x : Tensor R) (mask : option (Tensor bool)) : result (Tensor R) :=
  let* (att, values) := attention mask_fill omega m x mask in
  let* out := einsum_bhal_bhlv att values in
  let* out := rearrange_b_h_n_d out in
  let* out := Linear.forward (projection m) out in
  Ok out.
End MultiHeadAttention.

(** [ResidualAdd], on tensor values; the sub-modules of this program take
    no keyword arguments.  ([ResidualAddRef] below is the same code on
    tensor objects, where [x += res] updates an object in place.) *)
Module ResidualAdd.
Record t : Type := mk { fn : Tensor R -> result (Tensor R) }.

Definition forward (r : t) (x : Tensor R) : result (Tensor R) :=
  let res := x in
  let* x := fn r x in
  let* x := iadd x res in
  Ok x.
End ResidualAdd.

(** [ResidualAdd] on tensor objects.  A heap is the list of the tensor
    objects allocated so far, a reference the position of one of them; a
    sub-module takes a reference and returns one, which may be the very
    object it was given. *)
Abbreviation heap := (list (Tensor R)) (only parsing).
Abbreviation ref := nat (only parsing).

Module ResidualAddRef.
Definition module : Type := ref -> heap -> result (ref * heap).

Definition read (r : ref) (h : heap) : result (Tensor R) :=
  match h !! r with
  | Some v => Ok v
  | None => Err RuntimeError
  end.

Record t : Type := mk { fn : module }.

Definition forward (r : t) (x : ref) (h : heap) : result (ref * heap) :=
  let res := x in
  let* (x, h) := fn r x h in
  let* vx := read x h in
  let* vres := read res h in
  let* v := iadd vx vres in
  Ok (x, <[x := v]> h).

(** A sub-module that computes [f] into a new object. *)
Definition fresh (f : Tensor R -> result (Tensor R)) : module :=
  fun x h =>
    let* vx := read x h in
    let* vy := f vx in
    Ok (length h, h ++ [vy]).

(** [nn.Identity()]: returns the object it is given. *)
Definition identity : module := fun x h => Ok (x, h).
End ResidualAddRef.

Module FeedForwardBlock.
Record t : Type := mk {
  fc1 : Linear.t;
  act : GELU.t;
  drop : Dropout.t;
  fc2 : Linear.t
}.

Definition init (gelu : R -> R) (theta : Params) (emb_size expansion : nat)
    (drop_p : Q) : result t :=
  let* d := Dropout.init drop_p in
  Ok {| fc1 := Linear.init theta emb_size (expansion * emb_size);
        act := GELU.mk gelu;
        drop := d;
        fc2 := Linear.init (shift 2 theta) (expansion * emb_size) emb_size |}.

Definition forward (omega : Noise) (f : t) (x : Tensor R) : result (Tensor R) :=
  let* x := Linear.forward (fc1 f) x in
  let* x := GELU.forward (act f) x in
  let* x := Dropout.forward (drop f) (omega 0) x in
  let* x := Linear.forward (fc2 f) x in
  Ok x.
End FeedForwardBlock.

Module TransformerEncoderBlock.
Record t : Type := mk {
  norm1 : LayerNorm.t;
  attn : MultiHeadAttention.t;
  drop1 : Dropout.t;
  norm2 : LayerNorm.t;
  ff : FeedForwardBlock.t;
  drop2 : Dropout.t
}.

Definition init (gelu : R -> R) (theta : Params) (emb_size : nat) (drop_p : Q)
    (forward_expansion : nat) (forward_drop_p : Q)
    (num_heads : nat) (dropout : Q) : result t :=
  let* a := MultiHeadAttention.init (shift 2 theta) emb_size num_heads dropout in
  let* d1 := Dropout.init drop_p in
  let* f := FeedForwardBlock.init gelu (shift 8 theta) emb_size
              forward_expansion forward_drop_p in
  let* d2 := Dropout.init drop_p in
  Ok {| norm1 := LayerNorm.init theta emb_size;
        attn := a;
        drop1 := d1;
        norm2 := LayerNorm.init (shift 6 theta) emb_size;
        ff := f;
        drop2 := d2 |}.

(** The first [nn.Sequential]: the attention is called without a mask.  A
    block goes through four dropout layers. *)
Definition attention_stage (omega : Noise) (b : t) (x : Tensor R)
  : result (Tensor R) :=
  let* x := LayerNorm.forward (norm1 b) x in
  let* x := MultiHeadAttention.forward torch_mask_fill omega (attn b) x None in
  let* x := Dropout.forward (drop1 b) (omega 1) x in
  Ok x.

Definition feed_forward_stage (omega : Noise) (b : t) (x : Tensor R)
  : result (Tensor R) :=
  let* x := LayerNorm.forward (norm2 b) x in
  let* x := FeedForwardBlock.forward (shift 2 omega) (ff b) x in
  let* x := Dropout.forward (drop2 b) (omega 3) x in
  Ok x.

Definition forward (omega : Noise) (b : t) (x : Tensor R) : result (Tensor R) :=
  let* x := ResidualAdd.forward (ResidualAdd.mk (attention_stage omega b)) x in
  let* x := ResidualAdd.forward (ResidualAdd.mk (feed_forward_stage omega b)) x in
  Ok x.
End TransformerEncoderBlock.

Module TransformerEncoder.
Definition t : Type := list TransformerEncoderBlock.t.

(** Every block takes 12 parameter slots of its own. *)
Fixpoint init_blocks (gelu : R -> R) (theta : Params) (depth : nat)
    (emb_size : nat) (drop_p : Q) (forward_expansion : nat)
    (forward_drop_p : Q) (num_heads : nat) (dropout : Q) : result t :=
  match depth with
  | O => Ok []
  | S depth' =>
      let* b := TransformerEncoderBlock.init gelu theta emb_size drop_p
                  forward_expansion forward_drop_p num_heads dropout in
      let* bs := init_blocks gelu (shift 12 theta) depth' emb_size drop_p
                   forward_expansion forward_drop_p num_heads dropout in
      Ok (b :: bs)
  end.

Definition init := init_blocks.

Fixpoint forward (omega : Noise) (bs : t) (x : Tensor R) : result (Tensor R) :=
  match bs with
  | [] => Ok x
  | b :: bs' =>
      let* x := TransformerEncoderBlock.forward omega b x in
      forward (shift 4 omega) bs' x
  end.
End TransformerEncoder.

Module ClassificationHead.
Record t : Type := mk {
  norm : LayerNorm.t;
  fc : Linear.t
}.

Definition init (theta : Params) (emb_size n_classes : nat) : t :=
  {| norm := LayerNorm.init theta emb_size;
     fc := Linear.init (shift 2 theta) emb_size n_classes |}.

Definition forward (c : t) (x : Tensor R) : result (Tensor R) :=
  let* x := reduce_mean_b_n_e x in
  let* x := LayerNorm.forward (norm c) x in
  let* x := Linear.forward (fc c) x in
  Ok x.
End ClassificationHead.

(** The arguments of [ViT(...)], keyword arguments included. *)
Record Config : Type := mkConfig {
  in_channels : nat;
  patch_size : nat;
  emb_size : nat;
  img_size : nat;
  depth : nat;
  n_classes : nat;
  drop_p : Q;
  forward_expansion : nat;
  forward_drop_p : Q;
  num_heads : nat;
  dropout : Q
}.

(** The default values of the arguments. *)
Definition default_config : Config :=
  {| in_channels := 3;
     patch_size := 16;
     emb_size := 768;
     img_size := 224;
     depth := 12;
     n_classes := 1000;
     drop_p := 0;
     forward_expansion := 4;
     forward_drop_p := 0;
     num_heads := 8;
     dropout := 0 |}.

Module ViT.
Record t : Type := mk {
  patch_embedding : PatchEmbedding.t;
  encoder : TransformerEncoder.t;
  head : ClassificationHead.t
}.

Definition init (gelu : R -> R) (theta : Params) (c : Config) : result t :=
  let* pe := PatchEmbedding.init theta (in_channels c) (patch_size c)
               (emb_size c) (img_size c) in
  let* enc := TransformerEncoder.init gelu (shift 4 theta) (depth c)
                (emb_size c) (drop_p c) (forward_expansion c)
                (forward_drop_p c) (num_heads c) (dropout c) in
  Ok {| patch_embedding := pe;
        encoder := enc;
        head := ClassificationHead.init (shift (4 + 12 * depth c) theta)
                  (emb_size c) (n_classes c) |}.

Definition forward (omega : Noise) (m : t) (x : Tensor R) : result (Tensor R) :=
  let* x := PatchEmbedding.forward (patch_embedding m) x in
  let* x := TransformerEncoder.forward omega (encoder m) x in
  let* x := ClassificationHead.forward (head m) x in
  Ok x.
End ViT.

(** ** Notions used to state the properties *)

(** The dropout rates of a configuration are rates. *)
Definition rates_ok (c : Config) : bool :=
  Dropout.valid_rate (drop_p c) && Dropout.valid_rate (forward_drop_p c)
  && Dropout.valid_rate (dropout c).

(** The number of heads divides the embedding size. *)
Definition heads_ok (c : Config) : bool :=
  (0 <? num_heads c) && (emb_size c mod num_heads c =? 0).

(** The sizes are positive and the patch size divides the image size. *)
Definition sizes_ok (c : Config) : bool :=
  (0 <? in_channels c) && (0 <? patch_size c) && (0 <? emb_size c)
  && (0 <? img_size c) && (0 <? n_classes c)
  && (img_size c mod patch_size c =? 0).

(** A valid configuration. *)
Definition valid_config (c : Config) : bool :=
  sizes_ok c && heads_ok c && rates_ok c.

(** All dropout rates of the configuration are 0 (the default): no dropout
    layer changes its input. *)
Definition no_dropout (c : Config) : bool :=
  Qeq_bool (drop_p c) 0 && Qeq_bool (forward_drop_p c) 0
  && Qeq_bool (dropout c) 0.

(** The value of the patch projection at patch [(i, j)] of image [b]. *)
Definition patch_projection (c : Conv2d.t) (x : Tensor R) (b e i j : nat) : R :=
  (data (Conv2d.bias c) [e]
   + rsum (Conv2d.in_channels c) (fun ci =>
       rsum (Conv2d.kernel_size c) (fun u =>
         rsum (Conv2d.kernel_size c) (fun v =>
           data (Conv2d.weight c) [e; ci; u; v]
           * data x [b; ci; (i * Conv2d.stride c + u)%nat;
                     (j * Conv2d.stride c + v)%nat]))))%R.

(** Every block of the stack was built by the block constructor. *)
Definition built_blocks (gelu : R -> R) (E : nat) (dp : Q) (k : nat) (fdp : Q)
    (h : nat) (d : Q) (bs : TransformerEncoder.t) : Prop :=
  Forall (fun b => exists theta,
            TransformerEncoderBlock.init gelu theta E dp k fdp h d = Ok b) bs.

(** ** Concrete inputs *)

(** All parameters 0, and a stand-in for the activation. *)
Definition theta0 : Params := fun _ _ => 0%R.
Definition act0 : R -> R := fun r => r.
Definition zeros (s : list nat) : Tensor R := mkTensor s (fun _ => 0%R).

(** The default configuration with [emb_size=100]. *)
Definition config_100_8 : Config :=
  {| in_channels := 3; patch_size := 16; emb_size := 100; img_size := 224;
     depth := 12; n_classes := 1000; drop_p := 0; forward_expansion := 4;
     forward_drop_p := 0; num_heads := 8; dropout := 0 |}.

(** The default configuration with [img_size=225]. *)
Definition config_225 : Config :=
  {| in_channels := 3; patch_size := 16; emb_size := 768; img_size := 225;
     depth := 12; n_classes := 1000; drop_p := 0; forward_expansion := 4;
     forward_drop_p := 0; num_heads := 8; dropout := 0 |}.

(** One head on embeddings of size 1, all parameters 0. *)
Definition mha0 : MultiHeadAttention.t :=
  {| MultiHeadAttention.emb_size := 1;
     MultiHeadAttention.num_heads := 1;
     MultiHeadAttention.qkv := Linear.init theta0 1 3;
     MultiHeadAttention.att_drop := Dropout.mk 0;
     MultiHeadAttention.projection := Linear.init (shift 2 theta0) 1 1 |}.

(** A sequence of two tokens, and the mask that marks key position 1 invalid
    for every query. *)
Definition x0 : Tensor R := zeros [1; 2; 1].
Definition mask0 : Tensor bool :=
  mkTensor [1; 2; 2]
    (fun idx => match idx with
                | [_; _; k] => negb (k =? 1)
                | _ => true
                end).

(** The draws that keep every entry. *)
Definition noise0 : Noise := fun _ _ => true.

(** [mha0] with the dropout rate 1 on the attention weights. *)
Definition mha_drop1 : MultiHeadAttention.t :=
  {| MultiHeadAttention.emb_size := 1;
     MultiHeadAttention.num_heads := 1;
     MultiHeadAttention.qkv := Linear.init theta0 1 3;
     MultiHeadAttention.att_drop := Dropout.mk 1;
     MultiHeadAttention.projection := Linear.init (shift 2 theta0) 1 1 |}.

(** The tensor of a shape whose entries are all 1. *)
Definition ones (s : list nat) : Tensor R := mkTensor s (fun _ => 1%R).

(** A sub-module that keeps the shape and works in place, as [x.mul_(3)]
    does: it overwrites the object it is given and returns it. *)
Definition inplace3 : ResidualAddRef.module :=
  fun x h =>
    let* vx := ResidualAddRef.read x h in
    Ok (x, <[x := mkTensor (shape vx) (fun idx => (3 * data vx idx)%R)]> h).

(** ** Permutations of the tokens and items of a batch *)

(** The sum of a list of numbers. *)
Fixpoint lsum (l : list R) : R :=
  match l with
  | [] => 0%R
  | r :: l' => (r + lsum l')%R
  end.

(** [sigma] permutes the positions [0 .. n-1]. *)
Definition permutes (n : nat) (sigma : nat -> nat) : Prop :=
  Permutation (map sigma (seq 0 n)) (seq 0 n).

(** The tokens of [x] in the order [sigma]. *)
Definition permute_tokens (sigma : nat -> nat) (x : Tensor R) : Tensor R :=
  mkTensor (shape x)
    (fun idx =>
       match idx with
       | [b; t; e] => data x [b; sigma t; e]
       | _ => data x idx
       end).

(** Batch item [b'] of [x'] holds the tokens of batch item [b] of [x], in
    the order [sigma]. *)
Definition reindexed (N E : nat) (sigma : nat -> nat) (b b' : nat)
    (x x' : Tensor R) : Prop :=
  forall t e, t < N -> e < E -> data x' [b'; t; e] = data x [b; sigma t; e].

(** The two positions 0 and 1 exchanged. *)
Definition swap01 (k : nat) : nat :=
  match k with
  | 0 => 1
  | 1 => 0
  | _ => k
  end.

(** A small configuration: images of one pixel, one block, one head. *)
Definition config_small : Config :=
  {| in_channels := 1; patch_size := 1; emb_size := 1; img_size := 1;
     depth := 1; n_classes := 2; drop_p := 0; forward_expansion := 4;
     forward_drop_p := 0; num_heads := 1; dropout := 0 |}.

(** * Properties *)

(** ** Sums *)

Lemma rsum_ext (n : nat) (f g : nat -> R) :
  (forall i, i < n -> f i = g i) -> rsum n f = rsum n g.
Proof.
  induction n as [|n IH]; intros Hfg; cbn [rsum]; [reflexivity|].
  rewrite IH by (intros i Hi; apply Hfg; lia).
  rewrite Hfg by lia. reflexivity.
Qed.

Lemma rsum_scale (n : nat) (f : nat -> R) (c : R) :
  rsum n (fun i => (f i * c)%R) = (rsum n f * c)%R.
Proof.
  induction n as [|n IH]; cbn [rsum]; [ring|]. rewrite IH. ring.
Qed.

Lemma rsum_pos (n : nat) (f : nat -> R) :
  0 < n -> (forall i, (0 < f i)%R) -> (0 < rsum n f)%R.
Proof.
  intros Hn Hf. destruct n as [|n]; [lia|]. clear Hn.
  induction n as [|n IH]; cbn [rsum] in *.
  - specialize (Hf 0). lra.
  - specialize (Hf (S n)). lra.
Qed.

(** The first term of a sum taken apart. *)
Lemma rsum_head (n : nat) (f : nat -> R) :
  rsum (S n) f = (f 0%nat + rsum n (fun i => f (S i)))%R.
Proof.
  induction n as [|n IH]; [cbn [rsum]; ring|].
  change (rsum (S (S n)) f) with (rsum (S n) f + f (S n))%R.
  rewrite IH. cbn [rsum]. ring.
Qed.

(** ** Broadcasting *)

Lemma dims_expand_refl (s : list nat) : dims_expand s s = true.
Proof.
  induction s as [|d s IH]; cbn [dims_expand]; [reflexivity|].
  rewrite Nat.eqb_refl, IH. reflexivity.
Qed.

Lemma broadcastable_refl (s : list nat) : broadcastable s s = true.
Proof.
  unfold broadcastable. rewrite Nat.sub_diag. cbn [skipn].
  rewrite dims_expand_refl, Nat.leb_refl. reflexivity.
Qed.

Lemma bcast_dims_in_range (s idx : list nat) :
  in_range s idx -> bcast_dims s idx = idx.
Proof.
  unfold in_range. intros H.
  induction H as [|i d idx s Hlt _ IH]; [reflexivity|].
  cbn [bcast_dims]. rewrite IH.
  destruct (Nat.eqb_spec d 1) as [->|_]; [|reflexivity].
  f_equal. lia.
Qed.

Lemma bcast_index_in_range (s idx : list nat) :
  in_range s idx -> bcast_index s idx = idx.
Proof.
  intros H. unfold bcast_index.
  assert (Hlen : length idx = length s) by (eapply Forall2_length; exact H).
  rewrite Hlen, Nat.sub_diag. cbn [skipn].
  apply bcast_dims_in_range, H.
Qed.

(** Adding a tensor of the same shape. *)
Lemma iadd_same_shape (x y : Tensor R) :
  shape y = shape x ->
  exists z, iadd x y = Ok z /\ shape z = shape x
    /\ forall idx, in_range (shape x) idx ->
         data z idx = (data x idx + data y idx)%R.
Proof.
  intros Hs. unfold iadd. rewrite Hs, broadcastable_refl.
  eexists; split; [reflexivity|]. split; [reflexivity|].
  intros idx Hidx. cbn [data]. rewrite bcast_index_in_range by exact Hidx.
  reflexivity.
Qed.

(** ** The library layers *)

Lemma Linear_forward_ok (l : Linear.t) (x : Tensor R) (lead : list nat) :
  shape x = lead ++ [Linear.in_features l] ->
  Linear.forward l x =
  Ok (mkTensor (lead ++ [Linear.out_features l])
        (fun idx =>
           (rsum (Linear.in_features l)
              (fun i => data x (removelast idx ++ [i])
                        * data (Linear.weight l) [List.last idx 0%nat; i])
            + data (Linear.bias l) [List.last idx 0%nat])%R)).
Proof.
  intros Hs. unfold Linear.forward.
  rewrite Hs, rev_app_distr. cbn [rev app].
  rewrite Nat.eqb_refl, rev_involutive. reflexivity.
Qed.

Lemma Linear_forward_shape (l : Linear.t) (x : Tensor R) (lead : list nat) :
  shape x = lead ++ [Linear.in_features l] ->
  exists y, Linear.forward l x = Ok y
    /\ shape y = lead ++ [Linear.out_features l].
Proof.
  intros Hs. rewrite (Linear_forward_ok l x lead Hs).
  eexists; split; reflexivity.
Qed.

Lemma LayerNorm_forward_shape (l : LayerNorm.t) (x : Tensor R) (lead : list nat) :
  shape x = lead ++ [LayerNorm.normalized_shape l] ->
  exists y, LayerNorm.forward l x = Ok y /\ shape y = shape x.
Proof.
  intros Hs. unfold LayerNorm.forward.
  rewrite Hs, rev_app_distr. cbn [rev app].
  rewrite Nat.eqb_refl. eexists; split; reflexivity.
Qed.

Lemma Dropout_init_ok (p : Q) :
  Dropout.valid_rate p = true -> Dropout.init p = Ok (Dropout.mk p).
Proof. intros H. unfold Dropout.init. rewrite H. reflexivity. Qed.

Lemma Dropout_init_inv (p : Q) (d : Dropout.t) :
  Dropout.init p = Ok d -> d = Dropout.mk p.
Proof.
  unfold Dropout.init. destruct (Dropout.valid_rate p); [|discriminate].
  intros H. injection H as H. symmetry. exact H.
Qed.

(** A dropout layer keeps the shape, whatever its rate and its mask. *)
Lemma Dropout_forward_shape (d : Dropout.t) (keep : list nat -> bool)
    (x : Tensor R) :
  exists y, Dropout.forward d keep x = Ok y /\ shape y = shape x.
Proof.
  unfold Dropout.forward.
  destruct (Qeq_bool (Dropout.p d) 0); [exists x; split; reflexivity|].
  destruct (Qeq_bool (Dropout.p d) 1); eexists; split; reflexivity.
Qed.

(** With the rate 0 it returns its input. *)
Lemma Dropout_forward_zero (d : Dropout.t) (keep : list nat -> bool)
    (x : Tensor R) :
  Qeq_bool (Dropout.p d) 0 = true -> Dropout.forward d keep x = Ok x.
Proof. intros H. unfold Dropout.forward. rewrite H. reflexivity. Qed.

(** ** Multi-head attention *)

Lemma MultiHeadAttention_init_inv theta E h p m :
  MultiHeadAttention.init theta E h p = Ok m ->
  MultiHeadAttention.emb_size m = E
  /\ MultiHeadAttention.num_heads m = h
  /\ MultiHeadAttention.qkv m = Linear.init theta E (E * 3)
  /\ MultiHeadAttention.projection m = Linear.init (shift 2 theta) E E.
Proof.
  unfold MultiHeadAttention.init. destruct (Dropout.init p); cbn [bind];
    [|discriminate].
  intros Hm. injection Hm as Hm. subst m. repeat split.
Qed.

Lemma MultiHeadAttention_init_drop theta E h p m :
  MultiHeadAttention.init theta E h p = Ok m ->
  MultiHeadAttention.att_drop m = Dropout.mk p.
Proof.
  unfold MultiHeadAttention.init.
  destruct (Dropout.init p) as [d|] eqn:Hd; cbn [bind]; [|discriminate].
  intros Hm. injection Hm as Hm. subst m. cbn [MultiHeadAttention.att_drop].
  apply Dropout_init_inv, Hd.
Qed.

Lemma heads_divide (E h : nat) :
  0 < h -> E mod h = 0 ->
  (h * 3 =? 0) = false /\ ((E * 3) mod (h * 3) =? 0) = true
  /\ E * 3 / (h * 3) = E / h /\ h * (E / h) = E.
Proof.
  intros Hh Hd. split; [apply Nat.eqb_neq; lia|]. split; [|split].
  - apply Nat.eqb_eq. rewrite Nat.Div0.mul_mod_distr_r, Hd. reflexivity.
  - apply Nat.Div0.div_mul_cancel_r. lia.
  - symmetry. apply Nat.Div0.div_exact. exact Hd.
Qed.

(** The scores are the dot products of the queries and the keys of a head,
    as the head split of the linear layer [qkv] gives them: nothing scales
    them. *)
Lemma MultiHeadAttention_scores_ok theta E h p m x B N :
  MultiHeadAttention.init theta E h p = Ok m ->
  0 < h -> E mod h = 0 ->
  shape x = [B; N; E] ->
  exists y qkv energy values,
    Linear.forward (MultiHeadAttention.qkv m) x = Ok y
    /\ rearrange_qkv y h = Ok qkv
    /\ MultiHeadAttention.scores m x = Ok (energy, values)
    /\ values = select 2 qkv
    /\ (forall r b hi n d,
          data qkv [r; b; hi; n; d] = data y [b; n; (hi * (E / h) + d) * 3 + r])
    /\ (forall b hi q k,
          data energy [b; hi; q; k]
          = rsum (E / h)
              (fun d => (data qkv [0%nat; b; hi; q; d] * data qkv [1%nat; b; hi; k; d])%R))
    /\ shape energy = [B; h; N; N]
    /\ shape values = [B; h; N; E / h].
Proof.
  intros Hm Hh Hd Hx.
  destruct (MultiHeadAttention_init_inv _ _ _ _ _ Hm) as (He & Hn & Hq & Hp).
  destruct (heads_divide E h Hh Hd) as (H0 & Hmod & Hdiv & _).
  destruct (Linear_forward_shape (MultiHeadAttention.qkv m) x [B; N])
    as (y & Hy & Hsy); [rewrite Hq; exact Hx|].
  rewrite Hq in Hsy. cbn [Linear.init Linear.out_features app] in Hsy.
  assert (Hr : rearrange_qkv y h
               = Ok (mkTensor [3; B; h; N; E / h]
                       (fun idx =>
                          match idx with
                          | [r; bi; hi; ni; di] =>
                              data y [bi; ni; (hi * (E / h) + di) * 3 + r]
                          | _ => 0%R
                          end))).
  { unfold rearrange_qkv. rewrite Hsy, H0, Hmod, Hdiv. reflexivity. }
  eexists y, _, _, _. split; [exact Hy|]. split; [exact Hr|].
  split.
  { unfold MultiHeadAttention.scores. rewrite Hy, Hn. cbn [bind].
    rewrite Hr. cbn [bind]. unfold einsum_bhqd_bhkd, select. cbn [shape tl].
    rewrite !Nat.eqb_refl. cbn [andb bind]. reflexivity. }
  split; [reflexivity|].
  split; [intros; reflexivity|]. split; [intros; reflexivity|].
  split; reflexivity.
Qed.

(** Every row of a softmax sums to one. *)
Lemma softmax_row_sum (x : Tensor R) (pre : list nat) (n : nat) :
  List.last (shape x) 0 = n -> 0 < n ->
  rsum n (fun k => data (softmax x) (pre ++ [k])) = 1%R.
Proof.
  intros Hl Hn. unfold softmax. cbn [data]. rewrite Hl.
  set (S := rsum n (fun j => exp (data x (pre ++ [j])))).
  assert (HS : (0 < S)%R) by (apply rsum_pos; [exact Hn | intros; apply exp_pos]).
  rewrite (rsum_ext n _ (fun k => (exp (data x (pre ++ [k])) * / S)%R)).
  - rewrite rsum_scale. fold S. field. lra.
  - intros k _. rewrite removelast_last. reflexivity.
Qed.

(** The attention weights are the dropout of the softmax of the scores
    divided by the square root of the embedding size. *)
Lemma MultiHeadAttention_attention_ok mask_fill omega theta E h p m x B N :
  MultiHeadAttention.init theta E h p = Ok m ->
  0 < h -> E mod h = 0 ->
  shape x = [B; N; E] ->
  exists energy values att,
    MultiHeadAttention.scores m x = Ok (energy, values)
    /\ MultiHeadAttention.attention mask_fill omega m x None = Ok (att, values)
    /\ Dropout.forward (Dropout.mk p) (omega 0)
         (div_scalar (softmax energy) (sqrt (INR E))) = Ok att
    /\ shape att = [B; h; N; N]
    /\ shape energy = [B; h; N; N]
    /\ shape values = [B; h; N; E / h].
Proof.
  intros Hm Hh Hd Hx.
  destruct (MultiHeadAttention_scores_ok _ _ _ _ _ _ _ _ Hm Hh Hd Hx)
    as (_ & _ & energy & values & _ & _ & Hs & _ & _ & _ & He & Hv).
  destruct (MultiHeadAttention_init_inv _ _ _ _ _ Hm) as (HE & _).
  pose proof (MultiHeadAttention_init_drop _ _ _ _ _ Hm) as Hdrop.
  destruct (Dropout_forward_shape (Dropout.mk p) (omega 0)
              (div_scalar (softmax energy) (sqrt (INR E)))) as (att & Ha & Hsa).
  exists energy, values, att.
  split; [exact Hs|]. split.
  - unfold MultiHeadAttention.attention. rewrite Hs, HE, Hdrop.
    cbn [bind MultiHeadAttention.apply_mask]. rewrite Ha. reflexivity.
  - split; [exact Ha|]. split; [|auto].
    rewrite Hsa. cbn [shape div_scalar softmax]. exact He.
Qed.

(** Without dropout they are that quotient. *)
Lemma MultiHeadAttention_attention_zero mask_fill omega theta E h p m x B N :
  MultiHeadAttention.init theta E h p = Ok m ->
  Qeq_bool p 0 = true ->
  0 < h -> E mod h = 0 ->
  shape x = [B; N; E] ->
  exists energy values,
    MultiHeadAttention.scores m x = Ok (energy, values)
    /\ MultiHeadAttention.attention mask_fill omega m x None
       = Ok (div_scalar (softmax energy) (sqrt (INR E)), values)
    /\ shape energy = [B; h; N; N]
    /\ shape values = [B; h; N; E / h].
Proof.
  intros Hm Hp Hh Hd Hx.
  destruct (MultiHeadAttention_attention_ok mask_fill omega _ _ _ _ _ _ _ _
              Hm Hh Hd Hx) as (energy & values & att & Hs & Ha & Hdr & _ & He & Hv).
  rewrite Dropout_forward_zero in Hdr by exact Hp.
  injection Hdr as Hdr. subst att. exists energy, values. auto.
Qed.

Lemma MultiHeadAttention_forward_shape mask_fill omega theta E h p m x B N :
  MultiHeadAttention.init theta E h p = Ok m ->
  0 < h -> E mod h = 0 ->
  shape x = [B; N; E] ->
  exists y, MultiHeadAttention.forward mask_fill omega m x None = Ok y
    /\ shape y = [B; N; E].
Proof.
  intros Hm Hh Hd Hx.
  destruct (MultiHeadAttention_attention_ok mask_fill omega _ _ _ _ _ _ _ _
              Hm Hh Hd Hx) as (energy & values & att & _ & Ha & _ & Hsa & _ & Hv).
  destruct (MultiHeadAttention_init_inv _ _ _ _ _ Hm) as (_ & _ & _ & Hp).
  destruct (heads_divide E h Hh Hd) as (_ & _ & _ & Hmul).
  unfold MultiHeadAttention.forward. rewrite Ha. cbn [bind].
  unfold einsum_bhal_bhlv. rewrite Hsa, Hv.
  rewrite !Nat.eqb_refl. cbn [andb bind].
  unfold rearrange_b_h_n_d. cbn [shape bind]. rewrite Hp.
  rewrite (Linear_forward_ok _ _ [B; N])
    by (cbn [shape Linear.init Linear.in_features app]; rewrite Hmul; reflexivity).
  cbn [bind]. eexists; split; reflexivity.
Qed.

(** ** The patch tokenizer *)

Lemma PatchEmbedding_init_ok theta C P E I :
  0 < P ->
  PatchEmbedding.init theta C P E I =
  Ok {| PatchEmbedding.patch_size := P;
        PatchEmbedding.projection := Conv2d.init theta C E P P;
        PatchEmbedding.cls_token := mkTensor [1; 1; E] (theta 2);
        PatchEmbedding.positions := mkTensor [(I / P) ^ 2 + 1; E] (theta 3) |}.
Proof.
  intros HP. unfold PatchEmbedding.init.
  destruct (Nat.eqb_spec P 0) as [->|_]; [lia|reflexivity].
Qed.

Lemma PatchEmbedding_init_inv theta C P E I pe :
  PatchEmbedding.init theta C P E I = Ok pe ->
  0 < P
  /\ PatchEmbedding.projection pe = Conv2d.init theta C E P P
  /\ PatchEmbedding.cls_token pe = mkTensor [1; 1; E] (theta 2)
  /\ PatchEmbedding.positions pe = mkTensor [(I / P) ^ 2 + 1; E] (theta 3).
Proof.
  unfold PatchEmbedding.init.
  destruct (Nat.eqb_spec P 0) as [->|HP]; [discriminate|].
  intros Hpe. injection Hpe as Hpe. subst pe. repeat split. lia.
Qed.

(** A strided convolution whose kernel is as long as its stride yields the
    integer quotient of the length by the kernel size. *)
Lemma out_len_div (P n : nat) : 0 < P -> P <= n -> (n - P) / P + 1 = n / P.
Proof.
  intros HP Hn.
  replace n with (1 * P + (n - P)) at 2 by lia.
  rewrite Nat.div_add_l by lia. lia.
Qed.

Lemma Conv2d_forward_ok theta C E P x B H W :
  0 < C -> 0 < E ->
  0 < P -> P <= H -> P <= W ->
  shape x = [B; C; H; W] ->
  exists y, Conv2d.forward (Conv2d.init theta C E P P) x = Ok y
    /\ shape y = [B; E; H / P; W / P]
    /\ forall b e i j,
         data y [b; e; i; j] = patch_projection (Conv2d.init theta C E P P) x b e i j.
Proof.
  intros HC HE HP HH HW Hx. unfold Conv2d.forward. rewrite Hx.
  cbn [Conv2d.init Conv2d.in_channels Conv2d.out_channels Conv2d.stride
       Conv2d.kernel_size].
  rewrite Nat.eqb_refl. cbn [negb].
  destruct (Nat.eqb_spec C 0) as [->|_]; [lia|].
  destruct (Nat.eqb_spec E 0) as [->|_]; [lia|]. cbn [orb].
  destruct (Nat.eqb_spec P 0) as [->|_]; [lia|].
  destruct (Nat.ltb_spec H P); [lia|]. destruct (Nat.ltb_spec W P); [lia|].
  cbn [orb]. eexists; split; [reflexivity|]. split.
  - cbn [shape]. unfold Conv2d.out_len.
    cbn [Conv2d.init Conv2d.kernel_size Conv2d.stride Conv2d.out_channels].
    rewrite !out_len_div by lia. reflexivity.
  - intros. reflexivity.
Qed.

Lemma Conv2d_forward_channels c x B C H W :
  shape x = [B; C; H; W] -> C <> Conv2d.in_channels c ->
  Conv2d.forward c x = Err RuntimeError.
Proof.
  intros Hx HC. unfold Conv2d.forward. rewrite Hx.
  destruct (Nat.eqb_spec C (Conv2d.in_channels c)); [contradiction|reflexivity].
Qed.

Lemma Conv2d_forward_small c x B C H W :
  shape x = [B; C; H; W] ->
  H < Conv2d.kernel_size c \/ W < Conv2d.kernel_size c ->
  Conv2d.forward c x = Err RuntimeError.
Proof.
  intros Hx Hs. unfold Conv2d.forward. rewrite Hx.
  destruct (negb _); [reflexivity|]. destruct (_ || _); [reflexivity|].
  destruct (_ =? 0); [reflexivity|].
  destruct (Nat.ltb_spec H (Conv2d.kernel_size c)); [reflexivity|].
  destruct (Nat.ltb_spec W (Conv2d.kernel_size c)); [reflexivity|]. lia.
Qed.

(** A convolution without input channels, or without output channels. *)
Lemma Conv2d_forward_empty c x B C H W :
  shape x = [B; C; H; W] ->
  Conv2d.in_channels c = 0 \/ Conv2d.out_channels c = 0 ->
  Conv2d.forward c x = Err RuntimeError.
Proof.
  intros Hx Hz. unfold Conv2d.forward. rewrite Hx.
  destruct (negb _); [reflexivity|].
  destruct Hz as [-> | ->]; cbn [Nat.eqb orb]; [reflexivity|].
  rewrite orb_true_r. reflexivity.
Qed.

(** What the forward pass of the tokenizer returns, when the convolution
    accepts the image: [n] is the length of the positional table. *)
Lemma PatchEmbedding_forward_tokens theta C P E I pe x B H W :
  PatchEmbedding.init theta C P E I = Ok pe ->
  0 < C -> 0 < E ->
  P <= H -> P <= W ->
  shape x = [B; C; H; W] ->
  let n := (I / P) ^ 2 + 1 in
  let T := 1 + H / P * (W / P) in
  if (n =? T) || (n =? 1)
  then exists y, PatchEmbedding.forward pe x = Ok y
         /\ shape y = [B; T; E]
         /\ forall b t e,
              data y [b; t; e] =
              ((if t <? 1 then data (PatchEmbedding.cls_token pe) [0%nat; t; e]
                else patch_projection (PatchEmbedding.projection pe) x b e
                       ((t - 1) / (W / P))%nat ((t - 1) mod (W / P))%nat)
               + data (PatchEmbedding.positions pe) (bcast_index [n; E] [b; t; e]))%R
  else PatchEmbedding.forward pe x = Err RuntimeError.
Proof.
  intros Hpe HC HE HH HW Hx n T.
  destruct (PatchEmbedding_init_inv _ _ _ _ _ _ Hpe) as (HP & Hproj & Hcls & Hpos).
  destruct (Conv2d_forward_ok theta C E P x B H W HC HE HP HH HW Hx)
    as (y & Hy & Hsy & Hdy).
  unfold PatchEmbedding.forward. rewrite Hx, Hproj, Hy, Hcls, Hpos.
  cbn [bind]. unfold rearrange_b_e_h_w. rewrite Hsy. cbn [bind].
  unfold repeat_b_n_e. cbn [shape bind].
  unfold cat_dim1. cbn [shape]. rewrite !Nat.eqb_refl. cbn [andb bind].
  unfold iadd, broadcastable. cbn [shape length Nat.sub skipn dims_expand Nat.leb].
  fold n. fold T. rewrite Nat.eqb_refl. cbn [orb andb].
  rewrite andb_true_r.
  destruct ((n =? T) || (n =? 1)); [|reflexivity].
  eexists; split; [reflexivity|]. split; [reflexivity|].
  intros b t e. cbn [data]. f_equal.
  destruct (t <? 1); [reflexivity|]. apply Hdy.
Qed.

(** ** The encoder blocks *)

Lemma FeedForwardBlock_init_inv gelu theta E k p f :
  FeedForwardBlock.init gelu theta E k p = Ok f ->
  FeedForwardBlock.fc1 f = Linear.init theta E (k * E)
  /\ FeedForwardBlock.fc2 f = Linear.init (shift 2 theta) (k * E) E.
Proof.
  unfold FeedForwardBlock.init. destruct (Dropout.init p); cbn [bind];
    [|discriminate].
  intros Hf. injection Hf as Hf. subst f. split; reflexivity.
Qed.

Lemma FeedForwardBlock_init_drop gelu theta E k p f :
  FeedForwardBlock.init gelu theta E k p = Ok f ->
  FeedForwardBlock.drop f = Dropout.mk p.
Proof.
  unfold FeedForwardBlock.init.
  destruct (Dropout.init p) as [d|] eqn:Hd; cbn [bind]; [|discriminate].
  intros Hf. injection Hf as Hf. subst f. cbn [FeedForwardBlock.drop].
  apply Dropout_init_inv, Hd.
Qed.

(** One step through a dropout layer, whose result [v] has the shape of
    its input. *)
Ltac dropout_step v Hv Hsv :=
  match goal with
  | |- context [Dropout.forward ?d ?k ?g] =>
      destruct (Dropout_forward_shape d k g) as (v & Hv & Hsv);
      rewrite Hv; cbn [bind]
  end.

Lemma FeedForwardBlock_forward_shape gelu omega theta E k p f x B T :
  FeedForwardBlock.init gelu theta E k p = Ok f ->
  shape x = [B; T; E] ->
  exists y, FeedForwardBlock.forward omega f x = Ok y /\ shape y = [B; T; E].
Proof.
  intros Hf Hx.
  destruct (FeedForwardBlock_init_inv _ _ _ _ _ _ Hf) as (H1 & H2).
  unfold FeedForwardBlock.forward.
  destruct (Linear_forward_shape (FeedForwardBlock.fc1 f) x [B; T])
    as (u & -> & Hu); [rewrite H1; exact Hx|].
  cbn [bind GELU.forward]. dropout_step v Hv Hsv. cbn [shape] in Hsv.
  destruct (Linear_forward_shape (FeedForwardBlock.fc2 f) v [B; T])
    as (w & -> & Hw).
  { rewrite Hsv, Hu, H1, H2. reflexivity. }
  cbn [bind]. exists w. split; [reflexivity|]. rewrite Hw, H2. reflexivity.
Qed.

Lemma TransformerEncoderBlock_init_inv gelu theta E dp k fdp h d b :
  TransformerEncoderBlock.init gelu theta E dp k fdp h d = Ok b ->
  TransformerEncoderBlock.norm1 b = LayerNorm.init theta E
  /\ MultiHeadAttention.init (shift 2 theta) E h d
     = Ok (TransformerEncoderBlock.attn b)
  /\ TransformerEncoderBlock.norm2 b = LayerNorm.init (shift 6 theta) E
  /\ FeedForwardBlock.init gelu (shift 8 theta) E k fdp
     = Ok (TransformerEncoderBlock.ff b).
Proof.
  unfold TransformerEncoderBlock.init.
  destruct (MultiHeadAttention.init _ E h d); cbn [bind]; [|discriminate].
  destruct (Dropout.init dp); cbn [bind]; [|discriminate].
  destruct (FeedForwardBlock.init gelu _ E k fdp); cbn [bind]; [|discriminate].
  intros Hb. injection Hb as Hb. subst b. repeat split.
Qed.

Lemma TransformerEncoderBlock_init_drop gelu theta E dp k fdp h d b :
  TransformerEncoderBlock.init gelu theta E dp k fdp h d = Ok b ->
  TransformerEncoderBlock.drop1 b = Dropout.mk dp
  /\ TransformerEncoderBlock.drop2 b = Dropout.mk dp.
Proof.
  unfold TransformerEncoderBlock.init.
  destruct (MultiHeadAttention.init _ E h d); cbn [bind]; [|discriminate].
  destruct (Dropout.init dp) as [d1|] eqn:Hd1; cbn [bind]; [|discriminate].
  destruct (FeedForwardBlock.init gelu _ E k fdp); cbn [bind]; [|discriminate].
  intros Hb. injection Hb as Hb. subst b.
  cbn [TransformerEncoderBlock.drop1 TransformerEncoderBlock.drop2].
  rewrite (Dropout_init_inv _ _ Hd1). split; reflexivity.
Qed.

Lemma TransformerEncoderBlock_init_ok gelu theta E dp k fdp h d :
  Dropout.valid_rate dp = true -> Dropout.valid_rate fdp = true -> Dropout.valid_rate d = true ->
  exists b, TransformerEncoderBlock.init gelu theta E dp k fdp h d = Ok b.
Proof.
  intros Hdp Hfdp Hd.
  unfold TransformerEncoderBlock.init, MultiHeadAttention.init,
    FeedForwardBlock.init.
  rewrite !Dropout_init_ok by assumption. cbn [bind].
  eexists; reflexivity.
Qed.

Lemma attention_stage_shape gelu omega theta E dp k fdp h d b x B T :
  TransformerEncoderBlock.init gelu theta E dp k fdp h d = Ok b ->
  0 < h -> E mod h = 0 ->
  shape x = [B; T; E] ->
  exists y, TransformerEncoderBlock.attention_stage omega b x = Ok y
    /\ shape y = [B; T; E].
Proof.
  intros Hb Hh Hd Hx.
  destruct (TransformerEncoderBlock_init_inv _ _ _ _ _ _ _ _ _ Hb)
    as (Hn1 & Ha & _).
  unfold TransformerEncoderBlock.attention_stage. rewrite Hn1.
  destruct (LayerNorm_forward_shape (LayerNorm.init theta E) x [B; T] Hx)
    as (y & -> & Hy).
  cbn [bind]. rewrite Hx in Hy.
  destruct (MultiHeadAttention_forward_shape torch_mask_fill omega _ _ _ _ _ _ _ _
              Ha Hh Hd Hy) as (z & -> & Hz).
  cbn [bind].
  destruct (Dropout_forward_shape (TransformerEncoderBlock.drop1 b) (omega 1) z)
    as (u & -> & Hu).
  cbn [bind]. exists u. split; [reflexivity|congruence].
Qed.

Lemma feed_forward_stage_shape gelu omega theta E dp k fdp h d b x B T :
  TransformerEncoderBlock.init gelu theta E dp k fdp h d = Ok b ->
  shape x = [B; T; E] ->
  exists y, TransformerEncoderBlock.feed_forward_stage omega b x = Ok y
    /\ shape y = [B; T; E].
Proof.
  intros Hb Hx.
  destruct (TransformerEncoderBlock_init_inv _ _ _ _ _ _ _ _ _ Hb)
    as (_ & _ & Hn2 & Hf).
  unfold TransformerEncoderBlock.feed_forward_stage. rewrite Hn2.
  destruct (LayerNorm_forward_shape (LayerNorm.init (shift 6 theta) E) x [B; T] Hx)
    as (y & -> & Hy).
  cbn [bind]. rewrite Hx in Hy.
  destruct (FeedForwardBlock_forward_shape _ (shift 2 omega) _ _ _ _ _ _ _ _ Hf Hy)
    as (z & -> & Hz).
  cbn [bind].
  destruct (Dropout_forward_shape (TransformerEncoderBlock.drop2 b) (omega 3) z)
    as (u & -> & Hu).
  cbn [bind]. exists u. split; [reflexivity|congruence].
Qed.

Lemma ResidualAdd_forward_shape (fn : Tensor R -> result (Tensor R)) x y :
  fn x = Ok y -> shape y = shape x ->
  exists z, ResidualAdd.forward (ResidualAdd.mk fn) x = Ok z
    /\ shape z = shape x
    /\ forall idx, in_range (shape x) idx ->
         data z idx = (data y idx + data x idx)%R.
Proof.
  intros Hy Hs. unfold ResidualAdd.forward. cbn [ResidualAdd.fn].
  rewrite Hy. cbn [bind].
  destruct (iadd_same_shape y x (eq_sym Hs)) as (z & -> & Hz & Hd).
  cbn [bind]. exists z. split; [reflexivity|]. split; [congruence|].
  intros idx Hidx. apply Hd. rewrite Hs. exact Hidx.
Qed.

Lemma TransformerEncoderBlock_forward_shape gelu omega theta E dp k fdp h d b
    x B T :
  TransformerEncoderBlock.init gelu theta E dp k fdp h d = Ok b ->
  0 < h -> E mod h = 0 ->
  shape x = [B; T; E] ->
  exists y, TransformerEncoderBlock.forward omega b x = Ok y
    /\ shape y = [B; T; E].
Proof.
  intros Hb Hh Hd Hx. unfold TransformerEncoderBlock.forward.
  destruct (attention_stage_shape _ omega _ _ _ _ _ _ _ _ _ _ _ Hb Hh Hd Hx)
    as (a & Ha & Hsa).
  destruct (ResidualAdd_forward_shape _ x a Ha ltac:(congruence))
    as (y & -> & Hy & _).
  cbn [bind]. rewrite Hx in Hy.
  destruct (feed_forward_stage_shape _ omega _ _ _ _ _ _ _ _ _ _ _ Hb Hy)
    as (f & Hf & Hsf).
  destruct (ResidualAdd_forward_shape _ y f Hf ltac:(congruence))
    as (z & -> & Hz & _).
  cbn [bind]. exists z. split; [reflexivity|congruence].
Qed.

(** Without the divisibility the head split of the first stage fails. *)
Lemma TransformerEncoderBlock_forward_einops gelu omega theta E dp k fdp h d b
    x B T :
  TransformerEncoderBlock.init gelu theta E dp k fdp h d = Ok b ->
  0 < h -> E mod h <> 0 ->
  shape x = [B; T; E] ->
  TransformerEncoderBlock.forward omega b x = Err EinopsError.
Proof.
  intros Hb Hh Hd Hx.
  destruct (TransformerEncoderBlock_init_inv _ _ _ _ _ _ _ _ _ Hb)
    as (Hn1 & Ha & _).
  destruct (MultiHeadAttention_init_inv _ _ _ _ _ Ha) as (_ & Hn & Hq & _).
  unfold TransformerEncoderBlock.forward, ResidualAdd.forward.
  cbn [ResidualAdd.fn]. unfold TransformerEncoderBlock.attention_stage.
  rewrite Hn1.
  destruct (LayerNorm_forward_shape (LayerNorm.init theta E) x [B; T] Hx)
    as (y & -> & Hy).
  cbn [bind]. rewrite Hx in Hy.
  unfold MultiHeadAttention.forward, MultiHeadAttention.attention,
    MultiHeadAttention.scores.
  rewrite Hq, Hn. rewrite (Linear_forward_ok _ y [B; T]) by exact Hy.
  cbn [bind]. unfold rearrange_qkv.
  cbn [shape Linear.init Linear.out_features app].
  destruct (Nat.eqb_spec (h * 3) 0) as [|_]; [lia|].
  rewrite Nat.Div0.mul_mod_distr_r.
  destruct (Nat.eqb_spec (E mod h * 3) 0) as [|_]; [lia|].
  reflexivity.
Qed.

(** ** The encoder stack, the head and the whole model *)

Lemma TransformerEncoder_init_ok gelu E dp k fdp h d depth :
  Dropout.valid_rate dp = true -> Dropout.valid_rate fdp = true -> Dropout.valid_rate d = true ->
  forall theta,
  exists bs, TransformerEncoder.init gelu theta depth E dp k fdp h d = Ok bs
    /\ length bs = depth
    /\ built_blocks gelu E dp k fdp h d bs.
Proof.
  intros Hdp Hfdp Hd. unfold TransformerEncoder.init.
  induction depth as [|depth IH]; intros theta; cbn [TransformerEncoder.init_blocks].
  - exists []. split; [reflexivity|]. split; [reflexivity|]. constructor.
  - destruct (TransformerEncoderBlock_init_ok gelu theta E dp k fdp h d Hdp Hfdp Hd)
      as (b & Hb).
    destruct (IH (shift 12 theta)) as (bs & Hbs & Hlen & Hall).
    rewrite Hb, Hbs. cbn [bind]. exists (b :: bs).
    split; [reflexivity|]. split; [cbn [length]; congruence|].
    constructor; [exists theta; exact Hb | exact Hall].
Qed.

Lemma TransformerEncoder_forward_shape gelu E dp k fdp h d bs :
  built_blocks gelu E dp k fdp h d bs ->
  0 < h -> E mod h = 0 ->
  forall omega x B T, shape x = [B; T; E] ->
  exists y, TransformerEncoder.forward omega bs x = Ok y
    /\ shape y = [B; T; E].
Proof.
  intros Hall Hh Hd.
  induction Hall as [|b bs (theta & Hb) _ IH]; intros omega x B T Hx;
    cbn [TransformerEncoder.forward].
  - exists x. split; [reflexivity|exact Hx].
  - destruct (TransformerEncoderBlock_forward_shape _ omega _ _ _ _ _ _ _ _ _ _ _
                Hb Hh Hd Hx) as (y & -> & Hy).
    cbn [bind]. apply (IH (shift 4 omega) y B T Hy).
Qed.

Lemma TransformerEncoder_forward_einops gelu E dp k fdp h d bs :
  built_blocks gelu E dp k fdp h d bs ->
  0 < length bs ->
  0 < h -> E mod h <> 0 ->
  forall omega x B T, shape x = [B; T; E] ->
  TransformerEncoder.forward omega bs x = Err EinopsError.
Proof.
  intros Hall Hlen Hh Hd omega x B T Hx.
  destruct Hall as [|b bs (theta & Hb) _]; [cbn [length] in Hlen; lia|].
  cbn [TransformerEncoder.forward].
  rewrite (TransformerEncoderBlock_forward_einops _ omega _ _ _ _ _ _ _ _ _ _ _
             Hb Hh Hd Hx).
  reflexivity.
Qed.

(** The head: the mean over the token axis, the normalisation and the
    linear layer, one after the other. *)
Lemma ClassificationHead_forward_ok theta E n x B T :
  shape x = [B; T; E] ->
  exists pooled normed out,
    reduce_mean_b_n_e x = Ok pooled
    /\ shape pooled = [B; E]
    /\ (forall b e, data pooled [b; e]
                    = (rsum T (fun t => data x [b; t; e]) / INR T)%R)
    /\ LayerNorm.forward (LayerNorm.init theta E) pooled = Ok normed
    /\ shape normed = [B; E]
    /\ Linear.forward (Linear.init (shift 2 theta) E n) normed = Ok out
    /\ shape out = [B; n]
    /\ ClassificationHead.forward (ClassificationHead.init theta E n) x = Ok out.
Proof.
  intros Hx. unfold ClassificationHead.forward.
  cbn [ClassificationHead.init ClassificationHead.norm ClassificationHead.fc].
  unfold reduce_mean_b_n_e. rewrite Hx.
  set (pooled := mkTensor [B; E] _).
  destruct (LayerNorm_forward_shape (LayerNorm.init theta E) pooled [B] eq_refl)
    as (normed & Hn & Hsn).
  destruct (Linear_forward_shape (Linear.init (shift 2 theta) E n) normed [B] Hsn)
    as (out & Ho & Hso).
  exists pooled, normed, out. cbn [bind]. rewrite Hn. cbn [bind]. rewrite Ho.
  repeat split; try assumption; reflexivity.
Qed.

Lemma tokens_count (P I : nat) :
  0 < P -> P <= I ->
  ((I / P) ^ 2 + 1 =? 1 + I / P * (I / P)) = true.
Proof. intros _ _. apply Nat.eqb_eq. cbn [Nat.pow]. lia. Qed.

Lemma TransformerEncoder_init_built gelu E dp k fdp h d depth :
  forall theta bs,
  TransformerEncoder.init gelu theta depth E dp k fdp h d = Ok bs ->
  length bs = depth /\ built_blocks gelu E dp k fdp h d bs.
Proof.
  unfold TransformerEncoder.init.
  induction depth as [|depth IH]; intros theta bs;
    cbn [TransformerEncoder.init_blocks].
  - intros Hbs. injection Hbs as Hbs. subst bs. split; [reflexivity|constructor].
  - destruct (TransformerEncoderBlock.init gelu theta E dp k fdp h d) as [b|]
      eqn:Hb; cbn [bind]; [|discriminate].
    destruct (TransformerEncoder.init_blocks gelu (shift 12 theta) depth
                E dp k fdp h d) as [bs'|] eqn:Hbs'; cbn [bind]; [|discriminate].
    intros Hbs. injection Hbs as Hbs. subst bs.
    destruct (IH _ _ Hbs') as (Hlen & Hall).
    split; [cbn [length]; congruence|].
    constructor; [exists theta; exact Hb | exact Hall].
Qed.

Lemma ViT_init_inv gelu theta (c : Config) m :
  ViT.init gelu theta c = Ok m ->
  PatchEmbedding.init theta (in_channels c) (patch_size c) (emb_size c)
    (img_size c) = Ok (ViT.patch_embedding m)
  /\ length (ViT.encoder m) = depth c
  /\ built_blocks gelu (emb_size c) (drop_p c) (forward_expansion c)
       (forward_drop_p c) (num_heads c) (dropout c) (ViT.encoder m)
  /\ ViT.head m = ClassificationHead.init (shift (4 + 12 * depth c) theta)
                    (emb_size c) (n_classes c).
Proof.
  unfold ViT.init.
  destruct (PatchEmbedding.init theta _ _ _ _) as [pe|]; cbn [bind];
    [|discriminate].
  destruct (TransformerEncoder.init gelu _ _ _ _ _ _ _ _) as [bs|] eqn:Hbs;
    cbn [bind]; [|discriminate].
  intros Hm. injection Hm as Hm. subst m.
  cbn [ViT.patch_embedding ViT.encoder ViT.head].
  destruct (TransformerEncoder_init_built _ _ _ _ _ _ _ _ _ _ Hbs).
  auto.
Qed.

(** Construction checks the patch size and the dropout rates, and nothing
    else. *)
Lemma ViT_init_ok gelu theta (c : Config) :
  rates_ok c = true -> 0 < patch_size c ->
  exists m, ViT.init gelu theta c = Ok m.
Proof.
  intros Hr HP. unfold rates_ok in Hr.
  apply andb_prop in Hr as (Hr & Hd). apply andb_prop in Hr as (Hdp & Hfdp).
  unfold ViT.init. rewrite PatchEmbedding_init_ok by exact HP. cbn [bind].
  destruct (TransformerEncoder_init_ok gelu (emb_size c) (drop_p c)
              (forward_expansion c) (forward_drop_p c) (num_heads c) (dropout c)
              (depth c) Hdp Hfdp Hd (shift 4 theta)) as (bs & -> & _).
  cbn [bind]. eexists; reflexivity.
Qed.

(** The tokens of an image whose sides are the configured size. *)
Lemma ViT_tokens_ok gelu theta (c : Config) m x B :
  ViT.init gelu theta c = Ok m ->
  0 < in_channels c -> 0 < emb_size c ->
  patch_size c <= img_size c ->
  shape x = [B; in_channels c; img_size c; img_size c] ->
  exists tokens,
    PatchEmbedding.forward (ViT.patch_embedding m) x = Ok tokens
    /\ shape tokens = [B; (img_size c / patch_size c) ^ 2 + 1; emb_size c].
Proof.
  intros Hm HC HE HI Hx.
  destruct (ViT_init_inv _ _ _ _ Hm) as (Hpe & _).
  destruct (PatchEmbedding_init_inv _ _ _ _ _ _ Hpe) as (HP & _).
  pose proof (PatchEmbedding_forward_tokens _ _ _ _ _ _ x B _ _ Hpe HC HE HI HI Hx)
    as Htok.
  cbv zeta in Htok. rewrite tokens_count in Htok by assumption.
  cbn [orb] in Htok. destruct Htok as (tokens & Ht & Hst & _).
  exists tokens. split; [exact Ht|].
  rewrite Hst. f_equal. f_equal. cbn [Nat.pow]. lia.
Qed.

(** The forward pass on an image of the configured size, when the patch is
    not larger than the image and the heads divide the embedding, whatever
    the dropout layers draw. *)
Lemma ViT_forward_shape gelu omega theta (c : Config) m x B :
  ViT.init gelu theta c = Ok m ->
  heads_ok c = true ->
  0 < in_channels c -> 0 < emb_size c ->
  patch_size c <= img_size c ->
  shape x = [B; in_channels c; img_size c; img_size c] ->
  exists out, ViT.forward omega m x = Ok out /\ shape out = [B; n_classes c].
Proof.
  intros Hm Hh HC HE HI Hx. unfold heads_ok in Hh.
  apply andb_prop in Hh as (Hh & Hd).
  apply Nat.ltb_lt in Hh. apply Nat.eqb_eq in Hd.
  destruct (ViT_tokens_ok _ _ _ _ _ _ Hm HC HE HI Hx) as (tokens & Ht & Hst).
  destruct (ViT_init_inv _ _ _ _ Hm) as (_ & _ & Hall & Hhead).
  unfold ViT.forward. rewrite Ht, Hhead. cbn [bind].
  destruct (TransformerEncoder_forward_shape _ _ _ _ _ _ _ _ Hall Hh Hd
              omega tokens _ _ Hst) as (y & -> & Hy).
  cbn [bind].
  destruct (ClassificationHead_forward_ok
              (shift (4 + 12 * depth c) theta) (emb_size c) (n_classes c)
              y _ _ Hy) as (_ & _ & out & _ & _ & _ & _ & _ & _ & Hso & ->).
  cbn [bind]. exists out. split; [reflexivity|exact Hso].
Qed.

(** Without the divisibility the first block of the stack fails. *)
Lemma ViT_forward_einops gelu omega theta (c : Config) m x B :
  ViT.init gelu theta c = Ok m ->
  0 < num_heads c -> emb_size c mod num_heads c <> 0 ->
  0 < depth c ->
  0 < in_channels c ->
  patch_size c <= img_size c ->
  shape x = [B; in_channels c; img_size c; img_size c] ->
  ViT.forward omega m x = Err EinopsError.
Proof.
  intros Hm Hh Hd Hdepth HC HI Hx.
  assert (HE : 0 < emb_size c).
  { destruct (emb_size c); [|lia]. rewrite Nat.Div0.mod_0_l in Hd. congruence. }
  destruct (ViT_tokens_ok _ _ _ _ _ _ Hm HC HE HI Hx) as (tokens & Ht & Hst).
  destruct (ViT_init_inv _ _ _ _ Hm) as (_ & Hlen & Hall & _).
  unfold ViT.forward. rewrite Ht. cbn [bind].
  rewrite (TransformerEncoder_forward_einops _ _ _ _ _ _ _ _ Hall
             ltac:(lia) Hh Hd omega tokens _ _ Hst).
  reflexivity.
Qed.

(** ** The mask of the attention *)

(** Whatever the attribute [mask_fill] is, a mask changes no attention
    weight: the forward pass fails or goes on with the scores as they
    were. *)
Lemma attention_mask_dropped mask_fill omega m x mask r :
  MultiHeadAttention.attention mask_fill omega m x (Some mask) = Ok r ->
  MultiHeadAttention.attention mask_fill omega m x None = Ok r.
Proof.
  unfold MultiHeadAttention.attention.
  destruct (MultiHeadAttention.scores m x) as [[energy values]|e];
    cbn [bind]; [|discriminate].
  unfold MultiHeadAttention.apply_mask.
  destruct mask_fill as [method|]; cbn [bind]; [|discriminate].
  destruct (method energy (tensor_not mask) float32_min); cbn [bind];
    [|discriminate].
  intros H; exact H.
Qed.

Lemma attention_no_mask_fill omega m x mask :
  MultiHeadAttention.forward torch_mask_fill omega m x (Some mask)
  = Err AttributeError
  \/ exists e, MultiHeadAttention.scores m x = Err e.
Proof.
  unfold MultiHeadAttention.forward, MultiHeadAttention.attention.
  destruct (MultiHeadAttention.scores m x) as [[energy values]|e];
    cbn [bind]; [left; reflexivity | right; exists e; reflexivity].
Qed.

(** ** The tokens *)

(** The tokens of an image of the configured size: the classification token
    first, then the patches row by row. *)
Lemma PatchEmbedding_forward_configured theta C P E I pe x B :
  PatchEmbedding.init theta C P E I = Ok pe ->
  0 < C -> 0 < E ->
  P <= I ->
  shape x = [B; C; I; I] ->
  exists y, PatchEmbedding.forward pe x = Ok y
    /\ shape y = [B; (I / P) ^ 2 + 1; E]
    /\ (forall b e, e < E ->
          data y [b; 0; e]
          = (data (PatchEmbedding.cls_token pe) [0%nat; 0%nat; e]
             + data (PatchEmbedding.positions pe) [0%nat; e])%R)
    /\ (forall b i j e, i < I / P -> j < I / P -> e < E ->
          data y [b; 1 + (i * (I / P) + j); e]
          = (patch_projection (PatchEmbedding.projection pe) x b e i j
             + data (PatchEmbedding.positions pe) [(1 + (i * (I / P) + j))%nat; e])%R).
Proof.
  intros Hpe HC HE HI Hx.
  destruct (PatchEmbedding_init_inv _ _ _ _ _ _ Hpe) as (HP & _).
  pose proof (PatchEmbedding_forward_tokens _ _ _ _ _ _ x B _ _ Hpe HC HE HI HI Hx)
    as Htok.
  cbv zeta in Htok. rewrite tokens_count in Htok by assumption.
  cbn [orb] in Htok. destruct Htok as (y & Hy & Hsy & Hdy).
  exists y. split; [exact Hy|]. split.
  { rewrite Hsy. f_equal. f_equal. cbn [Nat.pow]. lia. }
  assert (He : forall e, e < E -> (if E =? 1 then 0 else e) = e).
  { intros e Hlt. destruct (Nat.eqb_spec E 1); lia. }
  split.
  - intros b e Hlt. rewrite Hdy. cbn [Nat.ltb Nat.leb].
    unfold bcast_index. cbn [length Nat.sub skipn bcast_dims].
    rewrite He by exact Hlt.
    destruct ((I / P) ^ 2 + 1 =? 1); reflexivity.
  - intros b i j e Hi Hj Hlt. rewrite Hdy.
    destruct (Nat.ltb_spec (1 + (i * (I / P) + j)) 1) as [|_]; [lia|].
    replace (1 + (i * (I / P) + j) - 1) with (i * (I / P) + j) by lia.
    rewrite Nat.div_add_l, Nat.div_small, Nat.add_0_r by lia.
    rewrite Nat.add_comm, Nat.Div0.mod_add, Nat.mod_small by lia.
    unfold bcast_index. cbn [length Nat.sub skipn bcast_dims].
    rewrite He by exact Hlt.
    destruct (Nat.eqb_spec ((I / P) ^ 2 + 1) 1) as [Hn|_]; [|reflexivity].
    cbn [Nat.pow] in Hn. nia.
Qed.

(** The projection of a patch reads the pixels of that patch only. *)
Lemma patch_projection_ext (c : Conv2d.t) (x x' : Tensor R) (b e i j : nat) :
  (forall ci u v,
      ci < Conv2d.in_channels c ->
      u < Conv2d.kernel_size c -> v < Conv2d.kernel_size c ->
      data x' [b; ci; i * Conv2d.stride c + u; j * Conv2d.stride c + v]
      = data x [b; ci; i * Conv2d.stride c + u; j * Conv2d.stride c + v]) ->
  patch_projection c x' b e i j = patch_projection c x b e i j.
Proof.
  intros Hpix. unfold patch_projection. f_equal.
  apply rsum_ext. intros ci Hci.
  apply rsum_ext. intros u Hu.
  apply rsum_ext. intros v Hv.
  rewrite Hpix by assumption. reflexivity.
Qed.

(** ** The residual wrapper on tensor objects *)

Lemma read_lookup (h : heap) (r : ref) (v : Tensor R) :
  h !! r = Some v -> ResidualAddRef.read r h = Ok v.
Proof. intros H. unfold ResidualAddRef.read. rewrite H. reflexivity. Qed.

(** A sub-module that writes its result into a new object computes, under
    the wrapper, what [ResidualAdd.forward] computes on values. *)
Lemma ResidualAddRef_fresh (f : Tensor R -> result (Tensor R))
    (h : heap) (x : ref) (vx : Tensor R) :
  h !! x = Some vx ->
  match ResidualAdd.forward (ResidualAdd.mk f) vx with
  | Ok v =>
      ResidualAddRef.forward (ResidualAddRef.mk (ResidualAddRef.fresh f)) x h
      = Ok (length h, h ++ [v])
  | Err e =>
      ResidualAddRef.forward (ResidualAddRef.mk (ResidualAddRef.fresh f)) x h
      = Err e
  end.
Proof.
  intros Hx. unfold ResidualAdd.forward, ResidualAddRef.forward.
  cbn [ResidualAdd.fn ResidualAddRef.fn]. unfold ResidualAddRef.fresh.
  rewrite (read_lookup h x vx Hx). cbn [bind].
  destruct (f vx) as [vy|e]; cbn [bind]; [|reflexivity].
  assert (Hy : (h ++ [vy]) !! length h = Some vy).
  { rewrite lookup_app_r by lia. rewrite Nat.sub_diag. reflexivity. }
  assert (Hx' : (h ++ [vy]) !! x = Some vx).
  { rewrite lookup_app_l; [exact Hx|]. eapply lookup_lt_Some, Hx. }
  rewrite (read_lookup _ _ _ Hy), (read_lookup _ _ _ Hx'). cbn [bind].
  destruct (iadd vy vx) as [v|e]; cbn [bind]; [|reflexivity].
  f_equal. f_equal.
  rewrite insert_app_r_alt by lia. rewrite Nat.sub_diag. reflexivity.
Qed.

(** What the wrapper does with any sub-module: the object that the
    sub-module returns gets the sum of what it holds and of what the input
    object holds when the sub-module has returned. *)
Lemma ResidualAddRef_forward_sum (fn : ResidualAddRef.module) (x : ref)
    (h : heap) (y : ref) (h1 : heap) (vy vres : Tensor R) :
  fn x h = Ok (y, h1) ->
  h1 !! y = Some vy ->
  h1 !! x = Some vres ->
  shape vres = shape vy ->
  exists v,
    ResidualAddRef.forward (ResidualAddRef.mk fn) x h = Ok (y, <[y := v]> h1)
    /\ <[y := v]> h1 !! y = Some v
    /\ shape v = shape vy
    /\ forall idx, in_range (shape vy) idx ->
         data v idx = (data vy idx + data vres idx)%R.
Proof.
  intros Hfn Hy1 Hx1 Hs.
  unfold ResidualAddRef.forward. cbn [ResidualAddRef.fn]. rewrite Hfn.
  cbn [bind]. rewrite (read_lookup _ _ _ Hy1), (read_lookup _ _ _ Hx1).
  cbn [bind].
  destruct (iadd_same_shape vy vres Hs) as (v & -> & Hsv & Hdv).
  cbn [bind]. exists v. split; [reflexivity|]. split.
  - apply list_lookup_insert_eq. eapply lookup_lt_Some, Hy1.
  - split; assumption.
Qed.
(** ** The statements of the specification *)

(** C1, as stated, does not hold: the model with [emb_size=100] and
    [num_heads=8] is constructed, no error is raised. *)
Lemma C1_construction_succeeds :
  (exists m, ViT.init act0 theta0 config_100_8 = Ok m)
  /\ forall e, ViT.init act0 theta0 config_100_8 <> Err e.
Proof.
  destruct (ViT_init_ok act0 theta0 config_100_8 eq_refl ltac:(cbn; lia))
    as (m & Hm).
  split; [exists m; exact Hm|]. intros e He. congruence.
Qed.

(** C1, amended: construction makes no divisibility check, so a model whose
    [emb_size] is not a multiple of [num_heads] (100 and 8, say) is
    constructed; with at least one block and at least one input channel, its
    forward pass on an image of the configured size fails in the head split
    of the first attention layer, with an einops error, whatever the dropout
    layers draw. *)
Theorem C1_divisibility_checked_by_forward gelu theta (c : Config) :
  rates_ok c = true ->
  0 < patch_size c ->
  0 < num_heads c ->
  emb_size c mod num_heads c <> 0 ->
  exists m, ViT.init gelu theta c = Ok m
    /\ forall omega x B,
         0 < depth c ->
         0 < in_channels c ->
         patch_size c <= img_size c ->
         shape x = [B; in_channels c; img_size c; img_size c] ->
         ViT.forward omega m x = Err EinopsError.
Proof.
  intros Hr HP Hh Hd.
  destruct (ViT_init_ok gelu theta c Hr HP) as (m & Hm).
  exists m. split; [exact Hm|]. intros omega x B Hdepth HC HI Hx.
  exact (ViT_forward_einops _ omega _ _ _ _ _ Hm Hh Hd Hdepth HC HI Hx).
Qed.

(** An instance of [C1_divisibility_checked_by_forward]. *)
Lemma C1_divisibility_checked_by_forward_witness :
  exists m, ViT.init act0 theta0 config_100_8 = Ok m
    /\ forall omega x B,
         0 < 12 -> 0 < 3 -> 16 <= 224 -> shape x = [B; 3; 224; 224] ->
         ViT.forward omega m x = Err EinopsError.
Proof.
  apply (C1_divisibility_checked_by_forward act0 theta0 config_100_8).
  - reflexivity.
  - cbn; lia.
  - cbn; lia.
  - cbn; lia.
Defined.

(** C2: the code at an input where the claim fails.  On two tokens with
    equal scores and a mask that marks key position 1 invalid for every
    query, the forward pass raises [AttributeError], a tensor having no
    method [mask_fill]; and were the method torch's [masked_fill], its
    result would be dropped and key position 1 would keep the weight 1/2. *)
Theorem C2_mask_has_no_effect (omega : Noise) :
  MultiHeadAttention.init theta0 1 1 0 = Ok mha0
  /\ (forall b q, data mask0 [b; q; 1] = false)
  /\ MultiHeadAttention.forward torch_mask_fill omega mha0 x0 (Some mask0)
     = Err AttributeError
  /\ exists att values,
       MultiHeadAttention.attention (Some masked_fill) omega mha0 x0 (Some mask0)
       = Ok (att, values)
       /\ data att [0; 0; 0; 1] = (1 / 2)%R
       /\ data att [0; 0; 1; 1] = (1 / 2)%R.
Proof.
  assert (Hinit : MultiHeadAttention.init theta0 1 1 0 = Ok mha0) by reflexivity.
  split; [exact Hinit|]. split; [intros; reflexivity|].
  destruct (MultiHeadAttention_attention_zero (Some masked_fill) omega theta0 1 1 0
              mha0 x0 1 2 Hinit eq_refl ltac:(lia) eq_refl eq_refl)
    as (energy & values & Hs & Ha & He & Hv).
  split.
  - unfold MultiHeadAttention.forward, MultiHeadAttention.attention.
    rewrite Hs. reflexivity.
  - eexists _, values. split.
    + unfold MultiHeadAttention.attention in *. rewrite Hs in *.
      cbn [bind MultiHeadAttention.apply_mask] in *.
      unfold masked_fill. rewrite He. cbn [bind]. exact Ha.
    + assert (Hen : forall idx, data energy idx = 0%R).
      { unfold MultiHeadAttention.scores in Hs. cbn in Hs.
        injection Hs as Hen _. subst energy. intros idx. cbn.
        repeat (destruct idx as [|? idx]; try reflexivity).
        unfold theta0. ring. }
      unfold div_scalar, softmax. cbn [data shape].
      rewrite He. cbn [List.last removelast app rsum].
      rewrite !Hen, exp_0. cbn [INR]. rewrite sqrt_1. split; field.
Qed.

(** C3, as stated, does not hold: the tokenizer built for [img_size=225]
    and [patch_size=16] accepts an image of 225 by 225 pixels, although 16
    does not divide 225. *)
Lemma C3_non_divisible_accepted :
  225 mod 16 <> 0
  /\ exists pe y,
       PatchEmbedding.init theta0 3 16 768 225 = Ok pe
       /\ PatchEmbedding.forward pe (zeros [1; 3; 225; 225]) = Ok y.
Proof.
  split; [cbn; lia|].
  destruct (PatchEmbedding_forward_configured theta0 3 16 768 225 _
              (zeros [1; 3; 225; 225]) 1
              (PatchEmbedding_init_ok theta0 3 16 768 225 ltac:(lia))
              ltac:(lia) ltac:(lia) ltac:(lia) eq_refl) as (y & Hy & _).
  eexists _, y. split; [|exact Hy]. apply PatchEmbedding_init_ok. lia.
Qed.

(** C3, amended: on an input of shape (B, C', H, W) the forward pass of the
    tokenizer fails, with torch's [RuntimeError], when C' differs from
    [in_channels], when H or W is smaller than [patch_size], when
    [in_channels] or [emb_size] is 0, or when the number of tokens
    1 + (H // patch_size) * (W // patch_size) differs from the length of the
    positional table and that length is not 1.  In every other case it
    succeeds, whether or not [patch_size] divides H and W; so it does, for
    positive [in_channels] and [emb_size], on every image whose sides are
    [img_size], if [patch_size] is at most [img_size]. *)
Theorem C3_forward_failures theta C P E I pe x B C' H W :
  PatchEmbedding.init theta C P E I = Ok pe ->
  shape x = [B; C'; H; W] ->
  let n := (I / P) ^ 2 + 1 in
  let T := 1 + H / P * (W / P) in
  (C' <> C -> PatchEmbedding.forward pe x = Err RuntimeError)
  /\ (H < P \/ W < P -> PatchEmbedding.forward pe x = Err RuntimeError)
  /\ (C = 0 \/ E = 0 -> PatchEmbedding.forward pe x = Err RuntimeError)
  /\ (C' = C -> P <= H -> P <= W -> n <> T -> n <> 1 ->
      PatchEmbedding.forward pe x = Err RuntimeError)
  /\ (C' = C -> 0 < C -> 0 < E -> P <= H -> P <= W -> n = T \/ n = 1 ->
      exists y, PatchEmbedding.forward pe x = Ok y /\ shape y = [B; T; E])
  /\ (C' = C -> 0 < C -> 0 < E -> H = I -> W = I -> P <= I ->
      exists y, PatchEmbedding.forward pe x = Ok y
        /\ shape y = [B; (I / P) ^ 2 + 1; E]).
Proof.
  intros Hpe Hx n T.
  destruct (PatchEmbedding_init_inv _ _ _ _ _ _ Hpe) as (HP & Hproj & _).
  assert (Hempty : C = 0 \/ E = 0 ->
                   PatchEmbedding.forward pe x = Err RuntimeError).
  { intros Hz. unfold PatchEmbedding.forward. rewrite Hx.
    rewrite (Conv2d_forward_empty _ x B C' H W Hx)
      by (rewrite Hproj; exact Hz).
    reflexivity. }
  split; [|split; [|split; [|split; [|split]]]].
  - intros HC. unfold PatchEmbedding.forward. rewrite Hx.
    rewrite (Conv2d_forward_channels _ x B C' H W Hx)
      by (rewrite Hproj; exact HC).
    reflexivity.
  - intros Hs. unfold PatchEmbedding.forward. rewrite Hx.
    rewrite (Conv2d_forward_small _ x B C' H W Hx)
      by (rewrite Hproj; exact Hs).
    reflexivity.
  - exact Hempty.
  - intros -> HH HW HnT Hn1.
    destruct (Nat.eq_dec C 0) as [HC0|HC0]; [apply Hempty; left; exact HC0|].
    destruct (Nat.eq_dec E 0) as [HE0|HE0]; [apply Hempty; right; exact HE0|].
    pose proof (PatchEmbedding_forward_tokens _ _ _ _ _ _ x B _ _ Hpe
                  ltac:(lia) ltac:(lia) HH HW Hx) as Htok.
    cbv zeta in Htok. fold n T in Htok.
    destruct (Nat.eqb_spec n T); [contradiction|].
    destruct (Nat.eqb_spec n 1); [contradiction|].
    exact Htok.
  - intros -> HC HE HH HW Hn.
    pose proof (PatchEmbedding_forward_tokens _ _ _ _ _ _ x B _ _ Hpe
                  HC HE HH HW Hx) as Htok.
    cbv zeta in Htok. fold n T in Htok.
    assert (Hb : (n =? T) || (n =? 1) = true).
    { destruct Hn as [-> | ->]; rewrite Nat.eqb_refl;
        [reflexivity | apply orb_true_r]. }
    rewrite Hb in Htok. destruct Htok as (y & Hy & Hsy & _).
    exists y. split; assumption.
  - intros -> HC HE -> -> HI.
    destruct (PatchEmbedding_forward_configured _ _ _ _ _ _ x B Hpe HC HE HI Hx)
      as (y & Hy & Hsy & _).
    exists y. split; assumption.
Qed.

(** An instance of [C3_forward_failures]. *)
Lemma C3_forward_failures_witness :
  exists y, PatchEmbedding.forward
              {| PatchEmbedding.patch_size := 16;
                 PatchEmbedding.projection := Conv2d.init theta0 3 768 16 16;
                 PatchEmbedding.cls_token := mkTensor [1; 1; 768] (theta0 2);
                 PatchEmbedding.positions :=
                   mkTensor [(225 / 16) ^ 2 + 1; 768] (theta0 3) |}
              (zeros [1; 3; 225; 225]) = Ok y
    /\ shape y = [1; (225 / 16) ^ 2 + 1; 768].
Proof.
  refine (proj2 (proj2 (proj2 (proj2 (proj2
    (C3_forward_failures theta0 3 16 768 225 _ (zeros [1; 3; 225; 225])
       1 3 225 225 _ eq_refl))))) eq_refl _ _ eq_refl eq_refl _).
  - apply PatchEmbedding_init_ok. lia.
  - lia.
  - lia.
  - lia.
Defined.

(** C4, as stated, does not hold for every module: the attention weights
    pass a dropout layer before they enter the weighted sum of the values,
    and the layer, which the source leaves in training mode, changes them
    when its rate is not 0.  With the rate 1 every weight is 0, and a row
    sums to 0, not to 1/sqrt(emb_size). *)
Lemma C4_dropout_changes_weights :
  MultiHeadAttention.init theta0 1 1 1 = Ok mha_drop1
  /\ exists energy values att,
       MultiHeadAttention.scores mha_drop1 x0 = Ok (energy, values)
       /\ MultiHeadAttention.attention torch_mask_fill noise0 mha_drop1 x0 None
          = Ok (att, values)
       /\ (forall idx, data att idx = 0%R)
       /\ rsum 2 (fun k => data (div_scalar (softmax energy) (sqrt (INR 1)))
                             [0; 0; 0; k])
          = (1 / sqrt (INR 1))%R
       /\ rsum 2 (fun k => data att [0; 0; 0; k]) <> (1 / sqrt (INR 1))%R.
Proof.
  assert (Hinit : MultiHeadAttention.init theta0 1 1 1 = Ok mha_drop1)
    by reflexivity.
  split; [exact Hinit|].
  destruct (MultiHeadAttention_attention_ok torch_mask_fill noise0 theta0 1 1 1
              mha_drop1 x0 1 2 Hinit ltac:(lia) eq_refl eq_refl)
    as (energy & values & att & Hs & Ha & Hdr & _ & He & _).
  exists energy, values, att. split; [exact Hs|]. split; [exact Ha|].
  assert (Hz : forall idx, data att idx = 0%R).
  { unfold Dropout.forward in Hdr. cbn [Dropout.p] in Hdr.
    change (Qeq_bool 1 0) with false in Hdr.
    change (Qeq_bool 1 1) with true in Hdr.
    injection Hdr as Hdr. subst att. intros idx. reflexivity. }
  split; [exact Hz|]. split.
  - pose proof (softmax_row_sum energy [0; 0; 0] 2) as Hrow.
    rewrite He in Hrow. specialize (Hrow eq_refl ltac:(lia)).
    cbn [app] in Hrow.
    transitivity
      (rsum 2 (fun k => data (softmax energy) [0%nat; 0%nat; 0%nat; k])
       * / sqrt (INR 1))%R.
    + rewrite <- rsum_scale. apply rsum_ext. intros k _. reflexivity.
    + rewrite Hrow. reflexivity.
  - cbn [rsum]. rewrite !Hz. cbn [INR]. rewrite sqrt_1. lra.
Qed.

(** C4, amended: the scores are the dot products of queries and keys, not
    divided by anything; the softmax of the scores is divided by
    sqrt(emb_size), so that each row of the quotient sums to
    1/sqrt(emb_size); the quotient passes the dropout layer of the module,
    and what the layer returns enters the weighted sum of the values.  With
    the dropout rate 0, the default, the layer returns the quotient: the
    weights used are softmax(scores) / sqrt(emb_size) and each row of them
    sums to 1/sqrt(emb_size). *)
Theorem C4_scaling_after_softmax mask_fill omega theta E h p m x B N :
  MultiHeadAttention.init theta E h p = Ok m ->
  0 < h -> E mod h = 0 ->
  shape x = [B; N; E] ->
  0 < N ->
  exists y qkv energy values att,
    Linear.forward (MultiHeadAttention.qkv m) x = Ok y
    /\ rearrange_qkv y h = Ok qkv
    /\ MultiHeadAttention.scores m x = Ok (energy, values)
    /\ values = select 2 qkv
    /\ (forall b hi q k,
          data energy [b; hi; q; k]
          = rsum (E / h) (fun d => (data qkv [0%nat; b; hi; q; d]
                                    * data qkv [1%nat; b; hi; k; d])%R))
    /\ (forall b hi q,
          rsum N (fun k => data (div_scalar (softmax energy) (sqrt (INR E)))
                             [b; hi; q; k])
          = (1 / sqrt (INR E))%R)
    /\ Dropout.forward (MultiHeadAttention.att_drop m) (omega 0)
         (div_scalar (softmax energy) (sqrt (INR E))) = Ok att
    /\ MultiHeadAttention.attention mask_fill omega m x None = Ok (att, values)
    /\ shape att = [B; h; N; N]
    /\ (Qeq_bool p 0 = true ->
        (forall idx,
            data att idx = (data (softmax energy) idx / sqrt (INR E))%R)
        /\ forall b hi q,
             rsum N (fun k => data att [b; hi; q; k]) = (1 / sqrt (INR E))%R)
    /\ MultiHeadAttention.forward mask_fill omega m x None
       = (let* out := einsum_bhal_bhlv att values in
          let* out := rearrange_b_h_n_d out in
          Linear.forward (MultiHeadAttention.projection m) out).
Proof.
  intros Hm Hh Hd Hx HN.
  destruct (MultiHeadAttention_scores_ok _ _ _ _ _ _ _ _ Hm Hh Hd Hx)
    as (y & qkv & energy & values & Hy & Hq & Hs & Hval & _ & Hen & He & _).
  destruct (MultiHeadAttention_attention_ok mask_fill omega _ _ _ _ _ _ _ _
              Hm Hh Hd Hx)
    as (energy' & values' & att & Hs' & Ha & Hdr & Hsa & _ & _).
  rewrite Hs in Hs'. injection Hs' as <- <-.
  pose proof (MultiHeadAttention_init_drop _ _ _ _ _ Hm) as Hdrop.
  assert (Hrow : forall b hi q,
             rsum N (fun k => data (div_scalar (softmax energy) (sqrt (INR E)))
                                [b; hi; q; k])
             = (1 / sqrt (INR E))%R).
  { intros b hi q.
    pose proof (softmax_row_sum energy [b; hi; q] N) as Hrow.
    rewrite He in Hrow. cbn [app] in Hrow. specialize (Hrow eq_refl HN).
    transitivity
      (rsum N (fun k => data (softmax energy) [b; hi; q; k]) * / sqrt (INR E))%R.
    + rewrite <- rsum_scale. apply rsum_ext. intros k _. reflexivity.
    + rewrite Hrow. reflexivity. }
  exists y, qkv, energy, values, att.
  split; [exact Hy|]. split; [exact Hq|]. split; [exact Hs|].
  split; [exact Hval|]. split; [exact Hen|]. split; [exact Hrow|].
  split; [rewrite Hdrop; exact Hdr|]. split; [exact Ha|].
  split; [exact Hsa|]. split.
  - intros Hp. rewrite Dropout_forward_zero in Hdr by exact Hp.
    injection Hdr as Hdr. subst att. split; [reflexivity|exact Hrow].
  - unfold MultiHeadAttention.forward. rewrite Ha. cbn [bind].
    destruct (einsum_bhal_bhlv att values); cbn [bind]; [|reflexivity].
    destruct (rearrange_b_h_n_d _); cbn [bind]; [|reflexivity].
    destruct (Linear.forward (MultiHeadAttention.projection m) _); reflexivity.
Qed.

(** An instance of [C4_scaling_after_softmax], at the dropout rate 0. *)
Lemma C4_scaling_after_softmax_witness :
  exists energy values att,
    MultiHeadAttention.scores mha0 x0 = Ok (energy, values)
    /\ MultiHeadAttention.attention torch_mask_fill noise0 mha0 x0 None
       = Ok (att, values)
    /\ shape att = [1; 1; 2; 2]
    /\ (forall idx,
          data att idx = (data (softmax energy) idx / sqrt (INR 1))%R)
    /\ (forall b hi q,
          rsum 2 (fun k => data att [b; hi; q; k]) = (1 / sqrt (INR 1))%R).
Proof.
  destruct (C4_scaling_after_softmax torch_mask_fill noise0 theta0 1 1 0 mha0 x0
              1 2 eq_refl (le_n 1) eq_refl eq_refl (le_S 1 1 (le_n 1)))
    as (y & qkv & energy & values & att & _ & _ & Hs & _ & _ & _ & _ & Ha & Hsa
        & Hz & _).
  exists energy, values, att.
  split; [exact Hs|]. split; [exact Ha|]. split; [exact Hsa|].
  exact (Hz eq_refl).
Defined.

(** C5: a model built from a valid configuration maps every batch of images
    of the configured size to a tensor of shape (batch, n_classes), whatever
    the dropout layers draw; so the default model maps an input of shape
    (1, 3, 224, 224) to an output of shape (1, 1000). *)
Theorem C5_output_shape gelu theta :
  (forall c : Config,
      valid_config c = true ->
      exists m, ViT.init gelu theta c = Ok m
        /\ forall omega x B,
             shape x = [B; in_channels c; img_size c; img_size c] ->
             exists out, ViT.forward omega m x = Ok out
               /\ shape out = [B; n_classes c])
  /\ exists m, ViT.init gelu theta default_config = Ok m
       /\ forall omega x,
            shape x = [1; 3; 224; 224] ->
            exists out, ViT.forward omega m x = Ok out /\ shape out = [1; 1000].
Proof.
  assert (Hgen : forall c : Config,
             valid_config c = true ->
             exists m, ViT.init gelu theta c = Ok m
               /\ forall omega x B,
                    shape x = [B; in_channels c; img_size c; img_size c] ->
                    exists out, ViT.forward omega m x = Ok out
                      /\ shape out = [B; n_classes c]).
  { intros c Hv. unfold valid_config in Hv.
    apply andb_prop in Hv as (Hv & Hr). apply andb_prop in Hv as (Hs & Hh).
    unfold sizes_ok in Hs.
    repeat (apply andb_prop in Hs as (Hs & ?)).
    repeat match goal with
           | H : (_ <? _) = true |- _ => apply Nat.ltb_lt in H
           | H : (_ =? _) = true |- _ => apply Nat.eqb_eq in H
           end.
    assert (HI : patch_size c <= img_size c).
    { destruct (Nat.le_gt_cases (patch_size c) (img_size c)) as [|Hlt];
        [assumption|].
      rewrite Nat.mod_small in * by exact Hlt. lia. }
    destruct (ViT_init_ok gelu theta c Hr ltac:(assumption)) as (m & Hm).
    exists m. split; [exact Hm|]. intros omega x B Hx.
    exact (ViT_forward_shape _ omega _ _ _ _ _ Hm Hh ltac:(assumption)
             ltac:(assumption) HI Hx). }
  split; [exact Hgen|].
  destruct (Hgen default_config eq_refl) as (m & Hm & Hf).
  exists m. split; [exact Hm|]. intros omega x Hx. exact (Hf omega x 1 Hx).
Qed.

(** An instance of [C5_output_shape]. *)
Lemma C5_output_shape_witness :
  exists m, ViT.init act0 theta0 default_config = Ok m
    /\ forall omega x B,
         shape x = [B; 3; 224; 224] ->
         exists out, ViT.forward omega m x = Ok out /\ shape out = [B; 1000].
Proof.
  apply (proj1 (C5_output_shape act0 theta0) default_config).
  reflexivity.
Defined.

(** C6: for [img_size=224], [patch_size=16] and at least one input channel
    and one embedding dimension, the tokenizer returns 197 tokens per image;
    the token at index 0 is the classification token (plus its positional
    vector), and the token at index 1 + 14 i + j is the projection of the
    patch in row i and column j (plus its positional vector). *)
Theorem C6_token_sequence theta C E pe x B :
  PatchEmbedding.init theta C 16 E 224 = Ok pe ->
  0 < C -> 0 < E ->
  shape x = [B; C; 224; 224] ->
  exists y, PatchEmbedding.forward pe x = Ok y
    /\ shape y = [B; 197; E]
    /\ (forall b e, e < E ->
          data y [b; 0; e]
          = (data (PatchEmbedding.cls_token pe) [0%nat; 0%nat; e]
             + data (PatchEmbedding.positions pe) [0%nat; e])%R)
    /\ (forall b i j e, i < 14 -> j < 14 -> e < E ->
          data y [b; 1 + (i * 14 + j); e]
          = (patch_projection (PatchEmbedding.projection pe) x b e i j
             + data (PatchEmbedding.positions pe) [(1 + (i * 14 + j))%nat; e])%R).
Proof.
  intros Hpe HC HE Hx.
  destruct (PatchEmbedding_forward_configured _ _ _ _ _ _ x B Hpe HC HE
              ltac:(lia) Hx) as (y & Hy & Hsy & Hcls & Hpatch).
  change (224 / 16) with 14 in *. change (14 ^ 2 + 1) with 197 in Hsy.
  exists y. auto.
Qed.

(** An instance of [C6_token_sequence]. *)
Lemma C6_token_sequence_witness :
  exists y,
    PatchEmbedding.forward
      {| PatchEmbedding.patch_size := 16;
         PatchEmbedding.projection := Conv2d.init theta0 3 768 16 16;
         PatchEmbedding.cls_token := mkTensor [1; 1; 768] (theta0 2);
         PatchEmbedding.positions :=
           mkTensor [(224 / 16) ^ 2 + 1; 768] (theta0 3) |}
      (zeros [1; 3; 224; 224]) = Ok y
    /\ shape y = [1; 197; 768].
Proof.
  destruct (C6_token_sequence theta0 3 768 _ (zeros [1; 3; 224; 224]) 1
              (PatchEmbedding_init_ok theta0 3 16 768 224 ltac:(lia))
              ltac:(lia) ltac:(lia) eq_refl)
    as (y & Hy & Hs & _).
  exists y. split; assumption.
Defined.

(** C7, as stated, does not hold for every shape-preserving sub-module: the
    wrapper keeps a reference to its input, not a copy, so a sub-module that
    works in place changes what the wrapper adds.  For [fn] tripling its
    input in place, on an input whose entries are 1, the wrapper returns
    3 + 3 = 6 where fn(x) + x is 3 + 1 = 4. *)
Lemma C7_inplace_sub_module_adds_twice :
  [ones [1; 1; 1]] !! 0 = Some (ones [1; 1; 1])
  /\ exists vy h1 v h2,
       inplace3 0 [ones [1; 1; 1]] = Ok (0, h1)
       /\ h1 !! 0 = Some vy
       /\ shape vy = shape (ones [1; 1; 1])
       /\ data vy [0; 0; 0] = 3%R
       /\ ResidualAddRef.forward (ResidualAddRef.mk inplace3) 0 [ones [1; 1; 1]]
          = Ok (0, h2)
       /\ h2 !! 0 = Some v
       /\ data v [0; 0; 0] = 6%R
       /\ data v [0; 0; 0]
          <> Rplus (data vy [0; 0; 0]) (data (ones [1; 1; 1]) [0; 0; 0]).
Proof.
  split; [reflexivity|].
  set (vy := mkTensor [1; 1; 1]
               (fun idx => Rmult 3 (data (ones [1; 1; 1]) idx))).
  destruct (ResidualAddRef_forward_sum inplace3 0 [ones [1; 1; 1]] 0 [vy] vy vy
              eq_refl eq_refl eq_refl eq_refl) as (v & Hf & Hl & _ & Hd).
  exists vy, [vy], v, (<[0 := v]> [vy]).
  split; [reflexivity|]. split; [reflexivity|]. split; [reflexivity|].
  assert (H3 : data vy [0; 0; 0] = 3%R) by (cbn; lra).
  split; [exact H3|]. split; [exact Hf|]. split; [exact Hl|].
  assert (H6 : data v [0; 0; 0] = 6%R).
  { rewrite Hd by (repeat constructor). rewrite H3. lra. }
  split; [exact H6|]. rewrite H6, H3. cbn. lra.
Qed.

(** C7, amended: the wrapper returns the object that its sub-module
    returns, holding the sum of the sub-module's result and of what the
    input object holds after the sub-module has run.  For every sub-module
    that keeps the shape and leaves its input object as it was, that is
    fn(x) + x; with the identity as sub-module the object returned, which
    is the input object itself, holds twice the input. *)
Theorem C7_residual_add :
  (forall (fn : ResidualAddRef.module) (x : ref)
          (h : heap) (vx : Tensor R)
          (y : ref) (h1 : heap) (vy vres : Tensor R),
      h !! x = Some vx ->
      fn x h = Ok (y, h1) ->
      h1 !! y = Some vy ->
      h1 !! x = Some vres ->
      shape vy = shape vx ->
      shape vres = shape vx ->
      exists v,
        ResidualAddRef.forward (ResidualAddRef.mk fn) x h = Ok (y, <[y := v]> h1)
        /\ <[y := v]> h1 !! y = Some v
        /\ shape v = shape vx
        /\ forall idx, in_range (shape vx) idx ->
             data v idx = (data vy idx + data vres idx)%R)
  /\ (forall (fn : ResidualAddRef.module) (x : ref)
          (h : heap) (vx : Tensor R)
          (y : ref) (h1 : heap) (vy : Tensor R),
      h !! x = Some vx ->
      fn x h = Ok (y, h1) ->
      h1 !! x = Some vx ->
      h1 !! y = Some vy ->
      shape vy = shape vx ->
      exists v,
        ResidualAddRef.forward (ResidualAddRef.mk fn) x h = Ok (y, <[y := v]> h1)
        /\ <[y := v]> h1 !! y = Some v
        /\ shape v = shape vx
        /\ forall idx, in_range (shape vx) idx ->
             data v idx = (data vy idx + data vx idx)%R)
  /\ (forall (x : ref) (h : heap) (vx : Tensor R),
        h !! x = Some vx ->
        exists v,
          ResidualAddRef.forward (ResidualAddRef.mk ResidualAddRef.identity) x h
          = Ok (x, <[x := v]> h)
          /\ <[x := v]> h !! x = Some v
          /\ shape v = shape vx
          /\ forall idx, in_range (shape vx) idx ->
               data v idx = (2 * data vx idx)%R).
Proof.
  assert (Hgen : forall (fn : ResidualAddRef.module) (x : ref)
          (h : heap) (vx : Tensor R)
          (y : ref) (h1 : heap) (vy vres : Tensor R),
      h !! x = Some vx ->
      fn x h = Ok (y, h1) ->
      h1 !! y = Some vy ->
      h1 !! x = Some vres ->
      shape vy = shape vx ->
      shape vres = shape vx ->
      exists v,
        ResidualAddRef.forward (ResidualAddRef.mk fn) x h = Ok (y, <[y := v]> h1)
        /\ <[y := v]> h1 !! y = Some v
        /\ shape v = shape vx
        /\ forall idx, in_range (shape vx) idx ->
             data v idx = (data vy idx + data vres idx)%R).
  { intros fn x h vx y h1 vy vres _ Hfn Hy1 Hx1 Hsy Hsr.
    destruct (ResidualAddRef_forward_sum fn x h y h1 vy vres Hfn Hy1 Hx1
                ltac:(congruence)) as (v & Hf & Hl & Hsv & Hd).
    exists v. split; [exact Hf|]. split; [exact Hl|].
    split; [congruence|]. intros idx Hidx. apply Hd. rewrite Hsy. exact Hidx. }
  split; [exact Hgen|]. split.
  - intros fn x h vx y h1 vy Hx Hfn Hx1 Hy1 Hs.
    exact (Hgen fn x h vx y h1 vy vx Hx Hfn Hy1 Hx1 Hs eq_refl).
  - intros x h vx Hx.
    destruct (Hgen ResidualAddRef.identity x h vx x h vx vx Hx eq_refl Hx Hx
                eq_refl eq_refl) as (v & Hf & Hl & Hs & Hd).
    exists v. split; [exact Hf|]. split; [exact Hl|]. split; [exact Hs|].
    intros idx Hidx. rewrite (Hd idx Hidx). ring.
Qed.

(** An instance of [C7_residual_add]. *)
Lemma C7_residual_add_witness :
  exists v,
    ResidualAddRef.forward (ResidualAddRef.mk ResidualAddRef.identity) 0 [x0]
    = Ok (0, <[0 := v]> [x0])
    /\ <[0 := v]> [x0] !! 0 = Some v
    /\ shape v = shape x0
    /\ forall idx, in_range (shape x0) idx ->
         data v idx = (data x0 idx + data x0 idx)%R.
Proof.
  apply (proj1 (proj2 C7_residual_add)
           ResidualAddRef.identity 0 [x0] x0 0 [x0] x0);
    reflexivity.
Defined.

(** C8: the head takes the mean over all T token positions, position 0
    included, then normalises, then applies one linear layer from
    [emb_size] to [n_classes].  The mean is not the token at position 0: the
    two differ as soon as the other tokens do not average to it. *)
Theorem C8_head_pools_by_mean theta E n x B T :
  shape x = [B; T; E] ->
  0 < T ->
  let head := ClassificationHead.init theta E n in
  exists pooled normed out,
    reduce_mean_b_n_e x = Ok pooled
    /\ shape pooled = [B; E]
    /\ (forall b e, data pooled [b; e]
                    = (rsum T (fun t => data x [b; t; e]) / INR T)%R)
    /\ (forall b e, data pooled [b; e]
                    = ((data x [b; 0%nat; e]
                        + rsum (T - 1) (fun t => data x [b; S t; e])) / INR T)%R)
    /\ (forall b e,
          rsum (T - 1) (fun t => data x [b; S t; e])
          <> (INR (T - 1) * data x [b; 0%nat; e])%R ->
          data pooled [b; e] <> data x [b; 0%nat; e])
    /\ LayerNorm.forward (ClassificationHead.norm head) pooled = Ok normed
    /\ LayerNorm.normalized_shape (ClassificationHead.norm head) = E
    /\ Linear.forward (ClassificationHead.fc head) normed = Ok out
    /\ Linear.in_features (ClassificationHead.fc head) = E
    /\ Linear.out_features (ClassificationHead.fc head) = n
    /\ ClassificationHead.forward head x = Ok out
    /\ shape out = [B; n].
Proof.
  intros Hx HT head.
  destruct (ClassificationHead_forward_ok theta E n x B T Hx)
    as (pooled & normed & out & Hp & Hsp & Hdp & Hn & Hsn & Ho & Hso & Hf).
  exists pooled, normed, out.
  split; [exact Hp|]. split; [exact Hsp|]. split; [exact Hdp|].
  assert (Hsplit : forall b e,
             data pooled [b; e]
             = ((data x [b; 0%nat; e]
                 + rsum (T - 1) (fun t => data x [b; S t; e])) / INR T)%R).
  { intros b e. rewrite Hdp. destruct T as [|T']; [lia|].
    rewrite rsum_head. replace (S T' - 1) with T' by lia. reflexivity. }
  split; [exact Hsplit|]. split.
  { intros b e Hne Heq. apply Hne. rewrite Hsplit in Heq.
    assert (HT0 : (0 < INR T)%R) by (apply lt_0_INR; exact HT).
    rewrite minus_INR by lia. cbn [INR].
    apply (Rmult_eq_compat_r (INR T)) in Heq.
    unfold Rdiv in Heq. rewrite Rmult_assoc, Rinv_l, Rmult_1_r in Heq by lra.
    lra. }
  repeat split; assumption.
Qed.

(** An instance of [C8_head_pools_by_mean]. *)
Lemma C8_head_pools_by_mean_witness :
  exists pooled,
    reduce_mean_b_n_e x0 = Ok pooled
    /\ forall b e, data pooled [b; e]
                   = (rsum 2 (fun t => data x0 [b; t; e]) / INR 2)%R.
Proof.
  destruct (C8_head_pools_by_mean theta0 1 1000 x0 1 2 eq_refl ltac:(lia))
    as (pooled & _ & _ & Hp & _ & Hd & _).
  exists pooled. split; assumption.
Defined.

(** C9: on two batches of images of the configured size, the token at
    position 0 is the same for every image of both batches: the
    classification token plus the positional vector 0.  The tokenizer has at
    least one input channel and one embedding dimension. *)
Theorem C9_classification_token_constant theta C P E I pe x1 x2 B :
  PatchEmbedding.init theta C P E I = Ok pe ->
  0 < C -> 0 < E ->
  P <= I ->
  shape x1 = [B; C; I; I] ->
  shape x2 = [B; C; I; I] ->
  exists y1 y2,
    PatchEmbedding.forward pe x1 = Ok y1
    /\ PatchEmbedding.forward pe x2 = Ok y2
    /\ forall b1 b2 e, e < E ->
         data y1 [b1; 0; e]
         = (data (PatchEmbedding.cls_token pe) [0%nat; 0%nat; e]
            + data (PatchEmbedding.positions pe) [0%nat; e])%R
         /\ data y2 [b2; 0; e] = data y1 [b1; 0; e].
Proof.
  intros Hpe HC HE HI Hx1 Hx2.
  destruct (PatchEmbedding_forward_configured _ _ _ _ _ _ x1 B Hpe HC HE HI Hx1)
    as (y1 & Hy1 & _ & Hc1 & _).
  destruct (PatchEmbedding_forward_configured _ _ _ _ _ _ x2 B Hpe HC HE HI Hx2)
    as (y2 & Hy2 & _ & Hc2 & _).
  exists y1, y2. split; [exact Hy1|]. split; [exact Hy2|].
  intros b1 b2 e He. split; [apply Hc1, He|].
  rewrite Hc1, Hc2 by exact He. reflexivity.
Qed.

(** An instance of [C9_classification_token_constant]. *)
Lemma C9_classification_token_constant_witness :
  exists y1 y2,
    PatchEmbedding.forward
      {| PatchEmbedding.patch_size := 16;
         PatchEmbedding.projection := Conv2d.init theta0 3 768 16 16;
         PatchEmbedding.cls_token := mkTensor [1; 1; 768] (theta0 2);
         PatchEmbedding.positions :=
           mkTensor [(224 / 16) ^ 2 + 1; 768] (theta0 3) |}
      (zeros [2; 3; 224; 224]) = Ok y1
    /\ PatchEmbedding.forward
      {| PatchEmbedding.patch_size := 16;
         PatchEmbedding.projection := Conv2d.init theta0 3 768 16 16;
         PatchEmbedding.cls_token := mkTensor [1; 1; 768] (theta0 2);
         PatchEmbedding.positions :=
           mkTensor [(224 / 16) ^ 2 + 1; 768] (theta0 3) |}
      (mkTensor [2; 3; 224; 224] (fun _ => 1%R)) = Ok y2
    /\ forall b1 b2 e, e < 768 ->
         data y2 [b2; 0; e] = data y1 [b1; 0; e].
Proof.
  destruct (C9_classification_token_constant theta0 3 16 768 224 _
              (zeros [2; 3; 224; 224])
              (mkTensor [2; 3; 224; 224] (fun _ => 1%R)) 2
              (PatchEmbedding_init_ok theta0 3 16 768 224 ltac:(lia))
              ltac:(lia) ltac:(lia) ltac:(lia) eq_refl eq_refl)
    as (y1 & y2 & H1 & H2 & H).
  exists y1, y2. split; [exact H1|]. split; [exact H2|].
  intros b1 b2 e He. apply (H b1 b2 e He).
Defined.

(** C10: a model with [img_size=225], [patch_size=16] and a positive
    [emb_size] is constructed, its positional table having 197 rows; on an
    input of shape (B, 3, 225, 225) the tokenizer returns 196 patch tokens
    and the classification token, and the model returns a tensor of shape
    (B, n_classes), whatever the dropout layers draw.  The tokens do not
    depend on the pixels of the last row and of the last column. *)
Theorem C10_floor_division_accepted gelu theta (c : Config) :
  rates_ok c = true ->
  heads_ok c = true ->
  0 < emb_size c ->
  in_channels c = 3 ->
  patch_size c = 16 ->
  img_size c = 225 ->
  exists m, ViT.init gelu theta c = Ok m
    /\ shape (PatchEmbedding.positions (ViT.patch_embedding m))
       = [197; emb_size c]
    /\ forall omega x B,
         shape x = [B; 3; 225; 225] ->
         exists tokens out,
           PatchEmbedding.forward (ViT.patch_embedding m) x = Ok tokens
           /\ shape tokens = [B; 196 + 1; emb_size c]
           /\ ViT.forward omega m x = Ok out
           /\ shape out = [B; n_classes c]
           /\ forall x',
                shape x' = [B; 3; 225; 225] ->
                (forall b ci r s, r < 224 -> s < 224 ->
                   data x' [b; ci; r; s] = data x [b; ci; r; s]) ->
                exists tokens',
                  PatchEmbedding.forward (ViT.patch_embedding m) x' = Ok tokens'
                  /\ forall b t e, t < 197 ->
                       data tokens' [b; t; e] = data tokens [b; t; e].
Proof.
  intros Hr Hh HE HC HP HI.
  destruct (ViT_init_ok gelu theta c Hr ltac:(lia)) as (m & Hm).
  destruct (ViT_init_inv _ _ _ _ Hm) as (Hpe & _).
  destruct (PatchEmbedding_init_inv _ _ _ _ _ _ Hpe) as (_ & Hproj & _ & Hpos).
  exists m. split; [exact Hm|]. split.
  { rewrite Hpos, HP, HI. reflexivity. }
  intros omega x B Hx.
  assert (Hle : patch_size c <= img_size c) by lia.
  assert (HC0 : 0 < in_channels c) by lia.
  assert (Hxc : shape x = [B; in_channels c; img_size c; img_size c])
    by (rewrite HC, HI; exact Hx).
  destruct (ViT_forward_shape _ omega _ _ _ _ _ Hm Hh HC0 HE Hle Hxc)
    as (out & Ho & Hso).
  pose proof (PatchEmbedding_forward_tokens _ _ _ _ _ _ x B _ _ Hpe HC0 HE
                Hle Hle Hxc) as Htok.
  cbv zeta in Htok. rewrite HP, HI in Htok.
  change (225 / 16) with 14 in Htok. cbn [Nat.pow Nat.eqb orb] in Htok.
  change ((14 * (14 * 1) + 1 =? 1 + 14 * 14) || (14 * (14 * 1) + 1 =? 1))
    with true in Htok.
  destruct Htok as (tokens & Ht & Hst & Hdt).
  exists tokens, out. split; [exact Ht|]. split; [exact Hst|].
  split; [exact Ho|]. split; [exact Hso|].
  intros x' Hx' Hpix.
  assert (Hxc' : shape x' = [B; in_channels c; img_size c; img_size c])
    by (rewrite HC, HI; exact Hx').
  pose proof (PatchEmbedding_forward_tokens _ _ _ _ _ _ x' B _ _ Hpe HC0 HE
                Hle Hle Hxc') as Htok'.
  cbv zeta in Htok'. rewrite HP, HI in Htok'.
  change (225 / 16) with 14 in Htok'. cbn [Nat.pow Nat.eqb orb] in Htok'.
  change ((14 * (14 * 1) + 1 =? 1 + 14 * 14) || (14 * (14 * 1) + 1 =? 1))
    with true in Htok'.
  destruct Htok' as (tokens' & Ht' & _ & Hdt').
  exists tokens'. split; [exact Ht'|].
  intros b t e Hlt. rewrite Hdt, Hdt'. f_equal.
  destruct (Nat.ltb_spec t 1) as [|Hge]; [reflexivity|].
  apply patch_projection_ext. rewrite Hproj.
  cbn [Conv2d.init Conv2d.in_channels Conv2d.kernel_size Conv2d.stride].
  rewrite HP. intros ci u v _ Hu Hv.
  assert (Hi : (t - 1) / 14 < 14) by (apply Nat.Div0.div_lt_upper_bound; lia).
  assert (Hj : (t - 1) mod 14 < 14) by (apply Nat.mod_upper_bound; lia).
  apply Hpix; lia.
Qed.

(** An instance of [C10_floor_division_accepted]. *)
Lemma C10_floor_division_accepted_witness :
  exists m, ViT.init act0 theta0 config_225 = Ok m
    /\ shape (PatchEmbedding.positions (ViT.patch_embedding m)) = [197; 768]
    /\ forall omega x B,
         shape x = [B; 3; 225; 225] ->
         exists tokens out,
           PatchEmbedding.forward (ViT.patch_embedding m) x = Ok tokens
           /\ shape tokens = [B; 196 + 1; 768]
           /\ ViT.forward omega m x = Ok out
           /\ shape out = [B; 1000].
Proof.
  destruct (C10_floor_division_accepted act0 theta0 config_225
              eq_refl eq_refl ltac:(cbn; lia) eq_refl eq_refl eq_refl)
    as (m & Hm & Hp & Hf).
  exists m. split; [exact Hm|]. split; [exact Hp|].
  intros omega x B Hx.
  destruct (Hf omega x B Hx) as (tokens & out & H1 & H2 & H3 & H4 & _).
  exists tokens, out. auto.
Defined.
(** * Further properties *)

(** ** Sums and permutations *)

Lemma lsum_app (l1 l2 : list R) : lsum (l1 ++ l2) = (lsum l1 + lsum l2)%R.
Proof.
  induction l1 as [|r l1 IH]; cbn [lsum app]; [ring|]. rewrite IH. ring.
Qed.

Lemma rsum_lsum (n : nat) (f : nat -> R) : rsum n f = lsum (map f (seq 0 n)).
Proof.
  induction n as [|n IH]; [reflexivity|].
  rewrite seq_S, map_app, lsum_app. cbn [rsum map lsum Nat.add]. rewrite IH. ring.
Qed.

Lemma lsum_Permutation (l1 l2 : list R) : Permutation l1 l2 -> lsum l1 = lsum l2.
Proof.
  induction 1 as [|r l1 l2 _ IH|r s l|l1 l2 l3 _ IH1 _ IH2]; cbn [lsum].
  - reflexivity.
  - rewrite IH. reflexivity.
  - ring.
  - congruence.
Qed.

(** A sum does not depend on the order of its terms. *)
Lemma rsum_permutes (n : nat) (sigma : nat -> nat) (f : nat -> R) :
  permutes n sigma -> rsum n (fun k => f (sigma k)) = rsum n f.
Proof.
  intros Hp. rewrite !rsum_lsum.
  rewrite <- (map_map sigma f). apply lsum_Permutation.
  apply Permutation_map. exact Hp.
Qed.

Lemma permutes_lt (n : nat) (sigma : nat -> nat) (k : nat) :
  permutes n sigma -> k < n -> sigma k < n.
Proof.
  intros Hp Hk. apply in_seq with (start := 0) (len := n).
  eapply Permutation_in; [exact Hp|]. apply in_map, in_seq. lia.
  all: try lia.
Qed.

(** ** Rows *)

(** A linear layer maps equal rows to equal rows. *)
Lemma Linear_forward_row (l : Linear.t) (x x' y y' : Tensor R) (pre pre' : list nat) :
  Linear.forward l x = Ok y ->
  Linear.forward l x' = Ok y' ->
  (forall i, i < Linear.in_features l ->
             data x' (pre' ++ [i]) = data x (pre ++ [i])) ->
  forall o, data y' (pre' ++ [o]) = data y (pre ++ [o]).
Proof.
  unfold Linear.forward. intros Hy Hy' Hrow o.
  destruct (rev (shape x)) as [|k lead]; [discriminate|].
  destruct (rev (shape x')) as [|k' lead']; [discriminate|].
  destruct (k =? _); [|discriminate]. destruct (k' =? _); [|discriminate].
  injection Hy as Hy. injection Hy' as Hy'. subst y y'. cbn [data].
  rewrite !removelast_last, !last_last. f_equal.
  apply rsum_ext. intros i Hi. rewrite Hrow by exact Hi. reflexivity.
Qed.

(** So does a layer normalisation. *)
Lemma LayerNorm_forward_row (l : LayerNorm.t) (x x' y y' : Tensor R)
    (pre pre' : list nat) :
  LayerNorm.forward l x = Ok y ->
  LayerNorm.forward l x' = Ok y' ->
  (forall i, i < LayerNorm.normalized_shape l ->
             data x' (pre' ++ [i]) = data x (pre ++ [i])) ->
  forall e, e < LayerNorm.normalized_shape l ->
            data y' (pre' ++ [e]) = data y (pre ++ [e]).
Proof.
  unfold LayerNorm.forward. intros Hy Hy' Hrow e He.
  destruct (rev (shape x)) as [|k lead]; [discriminate|].
  destruct (rev (shape x')) as [|k' lead']; [discriminate|].
  destruct (Nat.eqb_spec k (LayerNorm.normalized_shape l)) as [->|]; [|discriminate].
  destruct (Nat.eqb_spec k' (LayerNorm.normalized_shape l)) as [->|]; [|discriminate].
  injection Hy as Hy. injection Hy' as Hy'. subst y y'. cbn [data].
  rewrite !removelast_last, !last_last.
  set (n := LayerNorm.normalized_shape l) in *.
  assert (Hm : LayerNorm.mean n (fun i => data x' (pre' ++ [i]))
               = LayerNorm.mean n (fun i => data x (pre ++ [i]))).
  { unfold LayerNorm.mean. f_equal. apply rsum_ext. intros i Hi. apply Hrow, Hi. }
  assert (Hv : LayerNorm.var n (fun i => data x' (pre' ++ [i]))
               = LayerNorm.var n (fun i => data x (pre ++ [i]))).
  { unfold LayerNorm.var. f_equal. apply rsum_ext. intros i Hi.
    rewrite Hm, Hrow by exact Hi. reflexivity. }
  rewrite Hm, Hv, Hrow by exact He. reflexivity.
Qed.

Ltac rsum_reindex N sigma Hperm :=
  match goal with
  | |- _ = rsum N ?F => rewrite <- (rsum_permutes N sigma F Hperm); cbv beta
  end.

(** The attention on a batch item of [x'] whose tokens are those of a batch
    item of [x], read in the order [sigma]. *)
Lemma MultiHeadAttention_forward_reindex mask_fill omega omega' theta E h p m
    x x' B B' N b b' sigma :
  MultiHeadAttention.init theta E h p = Ok m ->
  Qeq_bool p 0 = true ->
  0 < h -> E mod h = 0 ->
  shape x = [B; N; E] ->
  shape x' = [B'; N; E] ->
  permutes N sigma ->
  (forall t e, t < N -> e < E -> data x' [b'; t; e] = data x [b; sigma t; e]) ->
  exists y y',
    MultiHeadAttention.forward mask_fill omega m x None = Ok y
    /\ MultiHeadAttention.forward mask_fill omega' m x' None = Ok y'
    /\ shape y = [B; N; E] /\ shape y' = [B'; N; E]
    /\ forall t e, t < N -> data y' [b'; t; e] = data y [b; sigma t; e].
Proof.
  intros Hm Hp0 Hh Hd Hx Hx' Hperm Hrow.
  destruct (MultiHeadAttention_init_inv _ _ _ _ _ Hm) as (HE & Hn & Hq & Hp).
  pose proof (MultiHeadAttention_init_drop _ _ _ _ _ Hm) as Hdrop.
  destruct (heads_divide E h Hh Hd) as (H0 & Hmod & Hdiv & Hmul).
  unfold MultiHeadAttention.forward, MultiHeadAttention.attention,
    MultiHeadAttention.scores, MultiHeadAttention.apply_mask.
  rewrite Hq, Hn, Hp, HE, Hdrop.
  rewrite (Linear_forward_ok _ x [B; N]) by exact Hx.
  rewrite (Linear_forward_ok _ x' [B'; N]) by exact Hx'.
  cbn [bind]. unfold rearrange_qkv.
  cbn [shape Linear.init Linear.out_features app].
  rewrite H0, Hmod, Hdiv. cbn [negb bind].
  unfold einsum_bhqd_bhkd, select. cbn [shape tl].
  rewrite !Nat.eqb_refl. cbn [andb bind].
  rewrite !Dropout_forward_zero by exact Hp0. cbn [bind].
  unfold einsum_bhal_bhlv. cbn [shape div_scalar softmax].
  rewrite !Nat.eqb_refl. cbn [andb bind].
  unfold rearrange_b_h_n_d. cbn [shape bind].
  rewrite !(Linear_forward_ok _ _ [B; N])
    by (cbn [shape Linear.init Linear.in_features app]; rewrite Hmul; reflexivity).
  rewrite !(Linear_forward_ok _ _ [B'; N])
    by (cbn [shape Linear.init Linear.in_features app]; rewrite Hmul; reflexivity).
  cbn [bind]. eexists _, _. split; [reflexivity|]. split; [reflexivity|].
  split; [reflexivity|]. split; [reflexivity|].
  intros t e Ht.
  cbn [data shape div_scalar softmax List.last removelast app Linear.init
       Linear.in_features Linear.out_features Linear.weight Linear.bias].
  f_equal. apply rsum_ext. intros c _. f_equal.
  rsum_reindex N sigma Hperm.
  apply rsum_ext. intros l Hl. f_equal.
  - (* the attention weight *)
    f_equal. f_equal.
    + f_equal. apply rsum_ext. intros di _. f_equal.
      * f_equal. apply rsum_ext. intros i Hi. rewrite Hrow by assumption. reflexivity.
      * f_equal. apply rsum_ext. intros i Hi. rewrite Hrow by assumption. reflexivity.
    + rsum_reindex N sigma Hperm.
      apply rsum_ext. intros j Hj. f_equal.
      apply rsum_ext. intros di _. f_equal.
      * f_equal. apply rsum_ext. intros i Hi. rewrite Hrow by assumption. reflexivity.
      * f_equal. apply rsum_ext. intros i Hi. rewrite Hrow by assumption. reflexivity.
  - (* the value *)
    f_equal. apply rsum_ext. intros i Hi. rewrite Hrow by assumption. reflexivity.
Qed.

Lemma permutes_id (n : nat) : permutes n (fun k => k).
Proof. unfold permutes. rewrite map_id. reflexivity. Qed.

(** The feed-forward block maps equal rows to equal rows. *)
Lemma FeedForwardBlock_forward_row gelu omega omega' theta E k p f x x' y y'
    pre pre' :
  FeedForwardBlock.init gelu theta E k p = Ok f ->
  Qeq_bool p 0 = true ->
  FeedForwardBlock.forward omega f x = Ok y ->
  FeedForwardBlock.forward omega' f x' = Ok y' ->
  (forall i, i < E -> data x' (pre' ++ [i]) = data x (pre ++ [i])) ->
  forall o, data y' (pre' ++ [o]) = data y (pre ++ [o]).
Proof.
  intros Hf Hp0 Hy Hy' Hrow.
  destruct (FeedForwardBlock_init_inv _ _ _ _ _ _ Hf) as (H1 & H2).
  unfold FeedForwardBlock.forward in Hy, Hy'.
  rewrite (FeedForwardBlock_init_drop _ _ _ _ _ _ Hf) in Hy, Hy'.
  destruct (Linear.forward (FeedForwardBlock.fc1 f) x) as [u|] eqn:Hu;
    cbn [bind] in Hy; [|discriminate].
  destruct (Linear.forward (FeedForwardBlock.fc1 f) x') as [u'|] eqn:Hu';
    cbn [bind] in Hy'; [|discriminate].
  cbn [GELU.forward bind] in Hy, Hy'.
  rewrite Dropout_forward_zero in Hy, Hy' by exact Hp0.
  cbn [bind] in Hy, Hy'.
  destruct (Linear.forward (FeedForwardBlock.fc2 f) _) as [v|] eqn:Hv in Hy;
    cbn [bind] in Hy; [|discriminate].
  destruct (Linear.forward (FeedForwardBlock.fc2 f) _) as [v'|] eqn:Hv' in Hy';
    cbn [bind] in Hy'; [|discriminate].
  injection Hy as Hy. injection Hy' as Hy'. subst v v'.
  apply (Linear_forward_row _ _ _ _ _ pre pre' Hv Hv').
  intros i _. cbn [data]. f_equal.
  apply (Linear_forward_row _ _ _ _ _ pre pre' Hu Hu').
  rewrite H1. exact Hrow.
Qed.

Lemma attention_stage_reindex gelu omega omega' theta E dp k fdp h d blk
    x x' B B' N b b' sigma :
  TransformerEncoderBlock.init gelu theta E dp k fdp h d = Ok blk ->
  Qeq_bool dp 0 = true -> Qeq_bool d 0 = true ->
  0 < h -> E mod h = 0 ->
  shape x = [B; N; E] -> shape x' = [B'; N; E] ->
  permutes N sigma ->
  reindexed N E sigma b b' x x' ->
  exists y y',
    TransformerEncoderBlock.attention_stage omega blk x = Ok y
    /\ TransformerEncoderBlock.attention_stage omega' blk x' = Ok y'
    /\ shape y = [B; N; E] /\ shape y' = [B'; N; E]
    /\ reindexed N E sigma b b' y y'.
Proof.
  intros Hb Hdp0 Hd0 Hh Hd Hx Hx' Hperm Hrow.
  destruct (TransformerEncoderBlock_init_inv _ _ _ _ _ _ _ _ _ Hb)
    as (Hn1 & Ha & _).
  destruct (TransformerEncoderBlock_init_drop _ _ _ _ _ _ _ _ _ Hb)
    as (Hdrop1 & _).
  unfold TransformerEncoderBlock.attention_stage. rewrite Hn1, Hdrop1.
  destruct (LayerNorm_forward_shape (LayerNorm.init theta E) x [B; N] Hx)
    as (u & Hu & Hsu).
  destruct (LayerNorm_forward_shape (LayerNorm.init theta E) x' [B'; N] Hx')
    as (u' & Hu' & Hsu').
  rewrite Hu, Hu'. cbn [bind]. rewrite Hx in Hsu. rewrite Hx' in Hsu'.
  assert (Hru : forall t e, t < N -> e < E ->
                  data u' [b'; t; e] = data u [b; sigma t; e]).
  { intros t e Ht He.
    apply (LayerNorm_forward_row _ _ _ _ _ [b; sigma t] [b'; t] Hu Hu');
      [|exact He].
    intros i Hi. apply Hrow; assumption. }
  destruct (MultiHeadAttention_forward_reindex torch_mask_fill omega omega'
              _ _ _ _ _ u u' B B' N b b' sigma Ha Hd0 Hh Hd Hsu Hsu' Hperm Hru)
    as (y & y' & -> & -> & Hsy & Hsy' & Hry).
  cbn [bind]. rewrite !Dropout_forward_zero by exact Hdp0.
  cbn [bind]. exists y, y'.
  repeat split; try assumption; try reflexivity.
  intros t e Ht _. apply Hry, Ht.
Qed.

Lemma feed_forward_stage_reindex gelu omega omega' theta E dp k fdp h d blk
    x x' B B' N b b' sigma :
  TransformerEncoderBlock.init gelu theta E dp k fdp h d = Ok blk ->
  Qeq_bool dp 0 = true -> Qeq_bool fdp 0 = true ->
  shape x = [B; N; E] -> shape x' = [B'; N; E] ->
  reindexed N E sigma b b' x x' ->
  exists y y',
    TransformerEncoderBlock.feed_forward_stage omega blk x = Ok y
    /\ TransformerEncoderBlock.feed_forward_stage omega' blk x' = Ok y'
    /\ shape y = [B; N; E] /\ shape y' = [B'; N; E]
    /\ reindexed N E sigma b b' y y'.
Proof.
  intros Hb Hdp0 Hfdp0 Hx Hx' Hrow.
  destruct (TransformerEncoderBlock_init_inv _ _ _ _ _ _ _ _ _ Hb)
    as (_ & _ & Hn2 & Hf).
  destruct (TransformerEncoderBlock_init_drop _ _ _ _ _ _ _ _ _ Hb)
    as (_ & Hdrop2).
  unfold TransformerEncoderBlock.feed_forward_stage. rewrite Hn2, Hdrop2.
  destruct (LayerNorm_forward_shape (LayerNorm.init (shift 6 theta) E) x [B; N] Hx)
    as (u & Hu & Hsu).
  destruct (LayerNorm_forward_shape (LayerNorm.init (shift 6 theta) E) x' [B'; N] Hx')
    as (u' & Hu' & Hsu').
  rewrite Hu, Hu'. cbn [bind]. rewrite Hx in Hsu. rewrite Hx' in Hsu'.
  destruct (FeedForwardBlock_forward_shape _ (shift 2 omega) _ _ _ _ _ _ _ _
              Hf Hsu) as (y & Hy & Hsy).
  destruct (FeedForwardBlock_forward_shape _ (shift 2 omega') _ _ _ _ _ _ _ _
              Hf Hsu') as (y' & Hy' & Hsy').
  rewrite Hy, Hy'. cbn [bind]. rewrite !Dropout_forward_zero by exact Hdp0.
  cbn [bind]. exists y, y'.
  repeat split; try assumption; try reflexivity.
  intros t e Ht He.
  apply (FeedForwardBlock_forward_row _ _ _ _ _ _ _ _ _ _ _ _ [b; sigma t] [b'; t]
           Hf Hfdp0 Hy Hy').
  intros i Hi.
  apply (LayerNorm_forward_row _ _ _ _ _ [b; sigma t] [b'; t] Hu Hu');
    [|exact Hi].
  intros j Hj. apply Hrow; assumption.
Qed.

Lemma ResidualAdd_forward_reindex fn fn' x x' y y' B B' N E b b' sigma :
  fn x = Ok y -> fn' x' = Ok y' ->
  shape x = [B; N; E] -> shape x' = [B'; N; E] ->
  shape y = [B; N; E] -> shape y' = [B'; N; E] ->
  b < B -> b' < B' -> permutes N sigma ->
  reindexed N E sigma b b' x x' ->
  reindexed N E sigma b b' y y' ->
  exists z z',
    ResidualAdd.forward (ResidualAdd.mk fn) x = Ok z
    /\ ResidualAdd.forward (ResidualAdd.mk fn') x' = Ok z'
    /\ shape z = [B; N; E] /\ shape z' = [B'; N; E]
    /\ reindexed N E sigma b b' z z'.
Proof.
  intros Hy Hy' Hx Hx' Hsy Hsy' Hb Hb' Hperm Hrx Hry.
  destruct (ResidualAdd_forward_shape fn x y Hy ltac:(congruence))
    as (z & Hz & Hsz & Hdz).
  destruct (ResidualAdd_forward_shape fn' x' y' Hy' ltac:(congruence))
    as (z' & Hz' & Hsz' & Hdz').
  exists z, z'. split; [exact Hz|]. split; [exact Hz'|].
  split; [congruence|]. split; [congruence|].
  intros t e Ht He.
  rewrite Hdz', Hdz.
  - rewrite Hrx, Hry by assumption. reflexivity.
  - rewrite Hx. repeat constructor; try assumption.
    apply permutes_lt; assumption.
  - rewrite Hx'. repeat constructor; assumption.
Qed.

Lemma TransformerEncoderBlock_forward_reindex gelu omega omega' theta E dp k
    fdp h d blk x x' B B' N b b' sigma :
  TransformerEncoderBlock.init gelu theta E dp k fdp h d = Ok blk ->
  Qeq_bool dp 0 = true -> Qeq_bool fdp 0 = true -> Qeq_bool d 0 = true ->
  0 < h -> E mod h = 0 ->
  shape x = [B; N; E] -> shape x' = [B'; N; E] ->
  b < B -> b' < B' -> permutes N sigma ->
  reindexed N E sigma b b' x x' ->
  exists y y',
    TransformerEncoderBlock.forward omega blk x = Ok y
    /\ TransformerEncoderBlock.forward omega' blk x' = Ok y'
    /\ shape y = [B; N; E] /\ shape y' = [B'; N; E]
    /\ reindexed N E sigma b b' y y'.
Proof.
  intros Hblk Hdp0 Hfdp0 Hd0 Hh Hd Hx Hx' Hb Hb' Hperm Hrow.
  unfold TransformerEncoderBlock.forward.
  destruct (attention_stage_reindex _ omega omega' _ _ _ _ _ _ _ _ _ _ _ _ _ _ _ _
              Hblk Hdp0 Hd0 Hh Hd Hx Hx' Hperm Hrow)
    as (a & a' & Ha & Ha' & Hsa & Hsa' & Hra).
  destruct (ResidualAdd_forward_reindex _ _ x x' a a' B B' N E b b' sigma
              Ha Ha' Hx Hx' Hsa Hsa' Hb Hb' Hperm Hrow Hra)
    as (y & y' & -> & -> & Hsy & Hsy' & Hry).
  cbn [bind].
  destruct (feed_forward_stage_reindex _ omega omega' _ _ _ _ _ _ _ _ _ _ _ _ _ _ _ _
              Hblk Hdp0 Hfdp0 Hsy Hsy' Hry)
    as (f & f' & Hf & Hf' & Hsf & Hsf' & Hrf).
  destruct (ResidualAdd_forward_reindex _ _ y y' f f' B B' N E b b' sigma
              Hf Hf' Hsy Hsy' Hsf Hsf' Hb Hb' Hperm Hry Hrf)
    as (z & z' & -> & -> & Hsz & Hsz' & Hrz).
  cbn [bind]. exists z, z'. auto.
Qed.

Lemma TransformerEncoder_forward_reindex gelu E dp k fdp h d bs B B' N b b' sigma :
  built_blocks gelu E dp k fdp h d bs ->
  Qeq_bool dp 0 = true -> Qeq_bool fdp 0 = true -> Qeq_bool d 0 = true ->
  0 < h -> E mod h = 0 ->
  b < B -> b' < B' -> permutes N sigma ->
  forall omega omega' x x',
  shape x = [B; N; E] -> shape x' = [B'; N; E] ->
  reindexed N E sigma b b' x x' ->
  exists y y',
    TransformerEncoder.forward omega bs x = Ok y
    /\ TransformerEncoder.forward omega' bs x' = Ok y'
    /\ shape y = [B; N; E] /\ shape y' = [B'; N; E]
    /\ reindexed N E sigma b b' y y'.
Proof.
  intros Hall Hdp0 Hfdp0 Hd0 Hh Hd Hb Hb' Hperm.
  induction Hall as [|blk bs (theta & Hblk) _ IH];
    intros omega omega' x x' Hx Hx' Hrow; cbn [TransformerEncoder.forward].
  - exists x, x'. auto.
  - destruct (TransformerEncoderBlock_forward_reindex _ omega omega' _ _ _ _ _ _
                _ _ _ _ _ _ _ _ _ _ Hblk Hdp0 Hfdp0 Hd0 Hh Hd Hx Hx' Hb Hb'
                Hperm Hrow)
      as (y & y' & -> & -> & Hsy & Hsy' & Hry).
    cbn [bind]. apply (IH _ _ y y' Hsy Hsy' Hry).
Qed.

(** The head does not see the order of the tokens, nor the other items of
    the batch. *)
Lemma ClassificationHead_forward_reindex theta E n x x' B B' N b b' sigma :
  shape x = [B; N; E] -> shape x' = [B'; N; E] ->
  permutes N sigma ->
  reindexed N E sigma b b' x x' ->
  exists out out',
    ClassificationHead.forward (ClassificationHead.init theta E n) x = Ok out
    /\ ClassificationHead.forward (ClassificationHead.init theta E n) x' = Ok out'
    /\ shape out = [B; n] /\ shape out' = [B'; n]
    /\ forall k, data out' [b'; k] = data out [b; k].
Proof.
  intros Hx Hx' Hperm Hrow.
  destruct (ClassificationHead_forward_ok theta E n x B N Hx)
    as (pooled & normed & out & _ & _ & Hdp & Hn & _ & Ho & Hso & Hf).
  destruct (ClassificationHead_forward_ok theta E n x' B' N Hx')
    as (pooled' & normed' & out' & _ & _ & Hdp' & Hn' & _ & Ho' & Hso' & Hf').
  exists out, out'. split; [exact Hf|]. split; [exact Hf'|].
  split; [exact Hso|]. split; [exact Hso'|].
  intros k.
  apply (Linear_forward_row _ _ _ _ _ [b] [b'] Ho Ho').
  intros i Hi.
  apply (LayerNorm_forward_row _ _ _ _ _ [b] [b'] Hn Hn'); [|exact Hi].
  intros e He. cbn [app]. rewrite Hdp, Hdp'. f_equal.
  rewrite <- (rsum_permutes N sigma (fun t => data x [b; t; e]) Hperm).
  apply rsum_ext. intros t Ht. apply Hrow; assumption.
Qed.

(** The projection of a patch of one image is that of the same patch of
    another image with the same pixels there. *)
Lemma patch_projection_item (c : Conv2d.t) (x x' : Tensor R) (b b' e i j : nat) :
  (forall ci u v,
      ci < Conv2d.in_channels c ->
      u < Conv2d.kernel_size c -> v < Conv2d.kernel_size c ->
      data x' [b'; ci; i * Conv2d.stride c + u; j * Conv2d.stride c + v]
      = data x [b; ci; i * Conv2d.stride c + u; j * Conv2d.stride c + v]) ->
  patch_projection c x' b' e i j = patch_projection c x b e i j.
Proof.
  intros Hpix. unfold patch_projection. f_equal.
  apply rsum_ext. intros ci Hci.
  apply rsum_ext. intros u Hu.
  apply rsum_ext. intros v Hv.
  rewrite Hpix by assumption. reflexivity.
Qed.

(** The tokens of an image do not depend on the other images of the
    batch. *)
Lemma PatchEmbedding_forward_item theta C P E I pe x x' B B' b b' :
  PatchEmbedding.init theta C P E I = Ok pe ->
  0 < C -> 0 < E ->
  P <= I ->
  shape x = [B; C; I; I] -> shape x' = [B'; C; I; I] ->
  (forall ci r s, ci < C -> r < I -> s < I ->
                  data x' [b'; ci; r; s] = data x [b; ci; r; s]) ->
  exists y y',
    PatchEmbedding.forward pe x = Ok y
    /\ PatchEmbedding.forward pe x' = Ok y'
    /\ shape y = [B; (I / P) ^ 2 + 1; E]
    /\ shape y' = [B'; (I / P) ^ 2 + 1; E]
    /\ reindexed ((I / P) ^ 2 + 1) E (fun t => t) b b' y y'.
Proof.
  intros Hpe HC HE HI Hx Hx' Hpix.
  destruct (PatchEmbedding_init_inv _ _ _ _ _ _ Hpe) as (HP & Hproj & _).
  pose proof (PatchEmbedding_forward_tokens _ _ _ _ _ _ x B _ _ Hpe HC HE
                HI HI Hx) as Htok.
  pose proof (PatchEmbedding_forward_tokens _ _ _ _ _ _ x' B' _ _ Hpe HC HE
                HI HI Hx') as Htok'.
  cbv zeta in Htok, Htok'. rewrite tokens_count in Htok, Htok' by assumption.
  cbn [orb] in Htok, Htok'.
  destruct Htok as (y & Hy & Hsy & Hdy). destruct Htok' as (y' & Hy' & Hsy' & Hdy').
  assert (Hn : 1 + I / P * (I / P) = (I / P) ^ 2 + 1) by (cbn [Nat.pow]; lia).
  exists y, y'. split; [exact Hy|]. split; [exact Hy'|].
  split; [rewrite Hsy, Hn; reflexivity|].
  split; [rewrite Hsy', Hn; reflexivity|].
  intros t e Ht He. rewrite Hdy, Hdy'.
  unfold bcast_index. cbn [length Nat.sub skipn]. f_equal.
  destruct (Nat.ltb_spec t 1) as [|Hge]; [reflexivity|].
  apply patch_projection_item. rewrite Hproj.
  cbn [Conv2d.init Conv2d.in_channels Conv2d.kernel_size Conv2d.stride].
  intros ci u v Hci Hu Hv.
  assert (Hq : 0 < I / P) by (apply Nat.div_str_pos; lia).
  assert (Hi : (t - 1) / (I / P) < I / P).
  { apply Nat.Div0.div_lt_upper_bound. cbn [Nat.pow] in Ht. lia. }
  assert (Hj : (t - 1) mod (I / P) < I / P) by (apply Nat.mod_upper_bound; lia).
  assert (Hle : I / P * P <= I) by (rewrite Nat.mul_comm; apply Nat.Div0.mul_div_le).
  apply Hpix; [exact Hci|nia|nia].
Qed.

(** The logits of an image do not depend on the other images of the
    batch, nor on the position of the image in the batch. *)
Lemma ViT_forward_item gelu omega omega' theta (c : Config) m x x' B B' b b' :
  ViT.init gelu theta c = Ok m ->
  no_dropout c = true ->
  heads_ok c = true ->
  0 < in_channels c -> 0 < emb_size c ->
  patch_size c <= img_size c ->
  shape x = [B; in_channels c; img_size c; img_size c] ->
  shape x' = [B'; in_channels c; img_size c; img_size c] ->
  b < B -> b' < B' ->
  (forall ci r s, ci < in_channels c -> r < img_size c -> s < img_size c ->
                  data x' [b'; ci; r; s] = data x [b; ci; r; s]) ->
  exists out out',
    ViT.forward omega m x = Ok out
    /\ ViT.forward omega' m x' = Ok out'
    /\ shape out = [B; n_classes c] /\ shape out' = [B'; n_classes c]
    /\ forall k, data out' [b'; k] = data out [b; k].
Proof.
  intros Hm Hnd Hh HC HE HI Hx Hx' Hb Hb' Hpix. unfold heads_ok in Hh.
  unfold no_dropout in Hnd.
  apply andb_prop in Hnd as (Hnd & Hd0). apply andb_prop in Hnd as (Hdp0 & Hfdp0).
  apply andb_prop in Hh as (Hh & Hd).
  apply Nat.ltb_lt in Hh. apply Nat.eqb_eq in Hd.
  destruct (ViT_init_inv _ _ _ _ Hm) as (Hpe & _ & Hall & Hhead).
  destruct (PatchEmbedding_forward_item _ _ _ _ _ _ x x' B B' b b'
              Hpe HC HE HI Hx Hx' Hpix) as (t & t' & Ht & Ht' & Hst & Hst' & Hrt).
  unfold ViT.forward. rewrite Ht, Ht', Hhead. cbn [bind].
  destruct (TransformerEncoder_forward_reindex _ _ _ _ _ _ _ _ B B' _ b b'
              (fun k => k) Hall Hdp0 Hfdp0 Hd0 Hh Hd Hb Hb' (permutes_id _)
              omega omega' t t' Hst Hst' Hrt)
    as (y & y' & -> & -> & Hsy & Hsy' & Hry).
  cbn [bind].
  destruct (ClassificationHead_forward_reindex
              (shift (4 + 12 * depth c) theta) (emb_size c) (n_classes c)
              y y' B B' _ b b' (fun k => k) Hsy Hsy' (permutes_id _) Hry)
    as (out & out' & -> & -> & Hso & Hso' & Hout).
  cbn [bind]. exists out, out'. auto.
Qed.

Lemma permutes_swap01 : permutes 2 swap01.
Proof. unfold permutes. cbn. apply perm_swap. Qed.

Lemma rsum_term_le (n : nat) (f : nat -> R) (k : nat) :
  (forall i, (0 <= f i)%R) -> k < n -> (f k <= rsum n f)%R.
Proof.
  intros Hf. induction n as [|n IH]; intros Hk; [lia|]. cbn [rsum].
  assert (H0 : (0 <= rsum n f)%R).
  { clear IH Hk. induction n as [|n IHn]; cbn [rsum]; [lra|].
    specialize (Hf n). lra. }
  destruct (Nat.eq_dec k n) as [->|Hne].
  - lra.
  - specialize (IH ltac:(lia)). specialize (Hf n). lra.
Qed.

(** ** Further properties of the modules *)

(** X1: with the dropout rate 0, the feed-forward block keeps the shape of
    a token sequence and works on every token by itself: two tokens with
    the same embedding, at whatever positions of whatever sequences, in
    whatever passes, are mapped to the same output. *)
Theorem X1_feed_forward_positionwise gelu omega omega' theta E k p f x x'
    B T B' T' :
  FeedForwardBlock.init gelu theta E k p = Ok f ->
  Qeq_bool p 0 = true ->
  shape x = [B; T; E] ->
  shape x' = [B'; T'; E] ->
  exists y y',
    FeedForwardBlock.forward omega f x = Ok y
    /\ FeedForwardBlock.forward omega' f x' = Ok y'
    /\ shape y = [B; T; E]
    /\ shape y' = [B'; T'; E]
    /\ forall b t b' t',
         (forall i, i < E -> data x' [b'; t'; i] = data x [b; t; i]) ->
         forall o, data y' [b'; t'; o] = data y [b; t; o].
Proof.
  intros Hf Hp0 Hx Hx'.
  destruct (FeedForwardBlock_forward_shape _ omega _ _ _ _ _ _ _ _ Hf Hx)
    as (y & Hy & Hsy).
  destruct (FeedForwardBlock_forward_shape _ omega' _ _ _ _ _ _ _ _ Hf Hx')
    as (y' & Hy' & Hsy').
  exists y, y'. repeat split; try assumption.
  intros b t b' t' Hrow o.
  exact (FeedForwardBlock_forward_row _ _ _ _ _ _ _ _ _ _ _ _ [b; t] [b'; t']
           Hf Hp0 Hy Hy' Hrow o).
Qed.

(** An instance of [X1_feed_forward_positionwise]. *)
Lemma X1_feed_forward_positionwise_witness :
  exists y y',
    FeedForwardBlock.forward noise0
      {| FeedForwardBlock.fc1 := Linear.init theta0 1 (4 * 1);
         FeedForwardBlock.act := GELU.mk act0;
         FeedForwardBlock.drop := Dropout.mk 0;
         FeedForwardBlock.fc2 := Linear.init (shift 2 theta0) (4 * 1) 1 |}
      x0 = Ok y
    /\ FeedForwardBlock.forward noise0
      {| FeedForwardBlock.fc1 := Linear.init theta0 1 (4 * 1);
         FeedForwardBlock.act := GELU.mk act0;
         FeedForwardBlock.drop := Dropout.mk 0;
         FeedForwardBlock.fc2 := Linear.init (shift 2 theta0) (4 * 1) 1 |}
      (zeros [3; 5; 1]) = Ok y'
    /\ shape y = [1; 2; 1]
    /\ shape y' = [3; 5; 1].
Proof.
  destruct (X1_feed_forward_positionwise act0 noise0 noise0 theta0 1 4 0 _ x0
              (zeros [3; 5; 1]) 1 2 3 5 eq_refl eq_refl eq_refl eq_refl)
    as (y & y' & H1 & H2 & H3 & H4 & _).
  exists y, y'. auto.
Defined.

(** X2: a mask never changes what the attention returns.  Whatever a
    tensor's [mask_fill] does with its arguments, a forward pass with a mask
    that returns, returns what the pass without mask returns; and with
    torch's tensors, which have no such method, it never returns. *)
Theorem X2_mask_ignored :
  (forall mask_fill omega m x mask y,
      MultiHeadAttention.forward mask_fill omega m x (Some mask) = Ok y ->
      MultiHeadAttention.forward mask_fill omega m x None = Ok y)
  /\ (forall omega m x mask,
        exists e,
          MultiHeadAttention.forward torch_mask_fill omega m x (Some mask)
          = Err e).
Proof.
  split.
  - intros mask_fill omega m x mask y. unfold MultiHeadAttention.forward.
    destruct (MultiHeadAttention.attention mask_fill omega m x (Some mask))
      as [r|] eqn:Hr; cbn [bind]; [|discriminate].
    rewrite (attention_mask_dropped _ _ _ _ _ _ Hr). cbn [bind].
    intros H; exact H.
  - intros omega m x mask.
    destruct (attention_no_mask_fill omega m x mask) as [H | (e & He)].
    + exists AttributeError. exact H.
    + exists e. unfold MultiHeadAttention.forward, MultiHeadAttention.attention.
      rewrite He. reflexivity.
Qed.

(** With torch's [masked_fill] as the method, the pass with [mask0]
    returns. *)
Lemma mask0_forward_returns :
  exists y,
    MultiHeadAttention.forward (Some masked_fill) noise0 mha0 x0 (Some mask0)
    = Ok y.
Proof.
  destruct (MultiHeadAttention_forward_shape (Some masked_fill) noise0 theta0
              1 1 0 mha0 x0 1 2 eq_refl ltac:(lia) eq_refl eq_refl)
    as (y & Hy & _).
  exists y. rewrite <- Hy.
  destruct (MultiHeadAttention_scores_ok theta0 1 1 0 mha0 x0 1 2
              eq_refl ltac:(lia) eq_refl eq_refl)
    as (_ & _ & energy & values & _ & _ & Hs & _ & _ & _ & He & _).
  unfold MultiHeadAttention.forward, MultiHeadAttention.attention.
  rewrite Hs. cbn [bind]. unfold MultiHeadAttention.apply_mask, masked_fill.
  rewrite He. reflexivity.
Qed.

(** An instance of [X2_mask_ignored]. *)
Lemma X2_mask_ignored_witness :
  exists y,
    MultiHeadAttention.forward (Some masked_fill) noise0 mha0 x0 (Some mask0)
    = Ok y
    /\ MultiHeadAttention.forward (Some masked_fill) noise0 mha0 x0 None = Ok y.
Proof.
  destruct mask0_forward_returns as (y & Hy).
  exists y. split; [exact Hy|].
  exact (proj1 X2_mask_ignored (Some masked_fill) noise0 mha0 x0 mask0 y Hy).
Defined.

(** X3: what the attention layer does with a token sequence of its
    embedding size.  Without heads the head split divides by zero; with a
    number of heads that does not divide the embedding size einops rejects
    the split; otherwise the result has the shape of the input. *)
Theorem X3_attention_outcomes mask_fill omega theta E h p m x B N :
  MultiHeadAttention.init theta E h p = Ok m ->
  shape x = [B; N; E] ->
  (h = 0 ->
   MultiHeadAttention.forward mask_fill omega m x None = Err ZeroDivisionError)
  /\ (0 < h -> E mod h <> 0 ->
      MultiHeadAttention.forward mask_fill omega m x None = Err EinopsError)
  /\ (0 < h -> E mod h = 0 ->
      exists y, MultiHeadAttention.forward mask_fill omega m x None = Ok y
        /\ shape y = [B; N; E]).
Proof.
  intros Hm Hx.
  destruct (MultiHeadAttention_init_inv _ _ _ _ _ Hm) as (_ & Hn & Hq & _).
  destruct (Linear_forward_shape (MultiHeadAttention.qkv m) x [B; N])
    as (u & Hu & Hsu); [rewrite Hq; exact Hx|].
  rewrite Hq in Hsu. cbn [Linear.init Linear.out_features app] in Hsu.
  split; [|split].
  - intros ->. unfold MultiHeadAttention.forward, MultiHeadAttention.attention,
      MultiHeadAttention.scores.
    rewrite Hu, Hn. cbn [bind]. unfold rearrange_qkv. rewrite Hsu. reflexivity.
  - intros Hh Hd. unfold MultiHeadAttention.forward, MultiHeadAttention.attention,
      MultiHeadAttention.scores.
    rewrite Hu, Hn. cbn [bind]. unfold rearrange_qkv. rewrite Hsu.
    destruct (Nat.eqb_spec (h * 3) 0) as [|_]; [lia|].
    rewrite Nat.Div0.mul_mod_distr_r.
    destruct (Nat.eqb_spec (E mod h * 3) 0) as [|_]; [lia|]. reflexivity.
  - intros Hh Hd.
    exact (MultiHeadAttention_forward_shape mask_fill omega _ _ _ _ _ _ _ _
             Hm Hh Hd Hx).
Qed.

(** An instance of [X3_attention_outcomes]. *)
Lemma X3_attention_outcomes_witness :
  exists y, MultiHeadAttention.forward torch_mask_fill noise0 mha0 x0 None = Ok y
    /\ shape y = [1; 2; 1].
Proof.
  apply (proj2 (proj2 (X3_attention_outcomes torch_mask_fill noise0 theta0 1 1 0
                         mha0 x0 1 2 eq_refl eq_refl))).
  - lia.
  - reflexivity.
Defined.

Lemma permute_tokens_reindexed N E sigma b x :
  reindexed N E sigma b b x (permute_tokens sigma x).
Proof. intros t e _ _. reflexivity. Qed.

(** X4: without a mask and with the dropout rate 0, the attention layer
    commutes with every permutation of the tokens: on the permuted sequence
    it returns the permuted result. *)
Theorem X4_attention_permutation_equivariant mask_fill omega omega' theta E h p
    m x B N sigma :
  MultiHeadAttention.init theta E h p = Ok m ->
  Qeq_bool p 0 = true ->
  0 < h -> E mod h = 0 ->
  shape x = [B; N; E] ->
  permutes N sigma ->
  exists y y',
    MultiHeadAttention.forward mask_fill omega m x None = Ok y
    /\ MultiHeadAttention.forward mask_fill omega' m (permute_tokens sigma x) None
       = Ok y'
    /\ shape y' = shape y
    /\ forall b t e, t < N -> data y' [b; t; e] = data y [b; sigma t; e].
Proof.
  intros Hm Hp0 Hh Hd Hx Hperm.
  destruct (MultiHeadAttention_forward_shape mask_fill omega _ _ _ _ _ _ _ _
              Hm Hh Hd Hx) as (y & Hy & Hsy).
  destruct (MultiHeadAttention_forward_shape mask_fill omega' _ _ _ _ _
              (permute_tokens sigma x) B N Hm Hh Hd Hx) as (y' & Hy' & Hsy').
  exists y, y'. split; [exact Hy|]. split; [exact Hy'|].
  split; [congruence|]. intros b t e Ht.
  destruct (MultiHeadAttention_forward_reindex mask_fill omega omega' _ _ _ _ _ x
              (permute_tokens sigma x) B B N b b sigma Hm Hp0 Hh Hd Hx Hx Hperm
              (permute_tokens_reindexed N E sigma b x))
    as (z & z' & Hz & Hz' & _ & _ & Hr).
  rewrite Hy in Hz. rewrite Hy' in Hz'.
  injection Hz as Hz. injection Hz' as Hz'. subst z z'.
  apply Hr, Ht.
Qed.

(** An instance of [X4_attention_permutation_equivariant]. *)
Lemma X4_attention_permutation_equivariant_witness :
  exists y y',
    MultiHeadAttention.forward torch_mask_fill noise0 mha0 x0 None = Ok y
    /\ MultiHeadAttention.forward torch_mask_fill noise0 mha0
         (permute_tokens swap01 x0) None
       = Ok y'
    /\ forall b t e, t < 2 -> data y' [b; t; e] = data y [b; swap01 t; e].
Proof.
  destruct (X4_attention_permutation_equivariant torch_mask_fill noise0 noise0
              theta0 1 1 0 mha0 x0 1 2 swap01 eq_refl eq_refl ltac:(lia) eq_refl
              eq_refl permutes_swap01)
    as (y & y' & H1 & H2 & _ & H3).
  exists y, y'. auto.
Defined.

(** X5: with the dropout rate 0, no attention weight is negative and none
    exceeds [1 / sqrt emb_size]. *)
Theorem X5_attention_weights_bounded mask_fill omega theta E h p m x B N :
  MultiHeadAttention.init theta E h p = Ok m ->
  Qeq_bool p 0 = true ->
  0 < h -> E mod h = 0 ->
  0 < E ->
  shape x = [B; N; E] ->
  exists att values,
    MultiHeadAttention.attention mask_fill omega m x None = Ok (att, values)
    /\ forall b hi q k, k < N ->
         (0 <= data att [b; hi; q; k] <= 1 / sqrt (INR E))%R.
Proof.
  intros Hm Hp0 Hh Hd HE Hx.
  destruct (MultiHeadAttention_attention_zero mask_fill omega _ _ _ _ _ _ _ _
              Hm Hp0 Hh Hd Hx) as (energy & values & _ & Ha & He & _).
  eexists _, values. split; [exact Ha|].
  intros b hi q k Hk. unfold div_scalar, softmax. cbn [data]. rewrite He.
  cbn [List.last removelast app].
  set (f := fun j => exp (data energy [b; hi; q; j])).
  assert (Hs : (0 < sqrt (INR E))%R) by (apply sqrt_lt_R0, lt_0_INR; exact HE).
  assert (Hfk : (0 < f k)%R) by apply exp_pos.
  assert (Hle : (f k <= rsum N f)%R).
  { apply rsum_term_le; [|exact Hk]. intros i. left. apply exp_pos. }
  change (exp (data energy [b; hi; q; k])) with (f k).
  assert (Hsum : (0 < rsum N f)%R) by lra.
  split.
  - left. apply Rdiv_lt_0_compat; [apply Rdiv_lt_0_compat|]; assumption.
  - unfold Rdiv.
    apply Rmult_le_compat_r with (r := (/ sqrt (INR E))%R) (r1 := (f k * / rsum N f)%R)
      (r2 := 1%R).
    + left. apply Rinv_0_lt_compat, Hs.
    + apply Rmult_le_reg_r with (r := rsum N f); [exact Hsum|].
      rewrite Rmult_assoc, Rinv_l, Rmult_1_r, Rmult_1_l by lra. exact Hle.
Qed.

(** An instance of [X5_attention_weights_bounded]. *)
Lemma X5_attention_weights_bounded_witness :
  exists att values,
    MultiHeadAttention.attention torch_mask_fill noise0 mha0 x0 None
    = Ok (att, values)
    /\ forall b hi q k, k < 2 ->
         (0 <= data att [b; hi; q; k] <= 1 / sqrt (INR 1))%R.
Proof.
  apply (X5_attention_weights_bounded torch_mask_fill noise0 theta0 1 1 0 mha0
           x0 1 2).
  - reflexivity.
  - reflexivity.
  - lia.
  - reflexivity.
  - lia.
  - reflexivity.
Defined.



(** X7: with all dropout rates 0, the encoder stack, of any depth, commutes
    with every permutation of the tokens; only the positional vectors that
    the tokenizer adds tell it where a token was. *)
Theorem X7_encoder_permutation_equivariant gelu omega omega' theta depth E dp k
    fdp h d bs x B N sigma :
  TransformerEncoder.init gelu theta depth E dp k fdp h d = Ok bs ->
  Qeq_bool dp 0 = true -> Qeq_bool fdp 0 = true -> Qeq_bool d 0 = true ->
  0 < h -> E mod h = 0 ->
  shape x = [B; N; E] ->
  permutes N sigma ->
  exists y y',
    TransformerEncoder.forward omega bs x = Ok y
    /\ TransformerEncoder.forward omega' bs (permute_tokens sigma x) = Ok y'
    /\ shape y = [B; N; E] /\ shape y' = [B; N; E]
    /\ forall b t e, b < B -> t < N -> e < E ->
         data y' [b; t; e] = data y [b; sigma t; e].
Proof.
  intros Hbs Hdp0 Hfdp0 Hd0 Hh Hd Hx Hperm.
  destruct (TransformerEncoder_init_built _ _ _ _ _ _ _ _ _ _ Hbs) as (_ & Hall).
  destruct (TransformerEncoder_forward_shape _ _ _ _ _ _ _ _ Hall Hh Hd
              omega x B N Hx) as (y & Hy & Hsy).
  destruct (TransformerEncoder_forward_shape _ _ _ _ _ _ _ _ Hall Hh Hd
              omega' (permute_tokens sigma x) B N Hx) as (y' & Hy' & Hsy').
  exists y, y'. repeat split; try assumption.
  intros b t e Hb Ht He.
  destruct (TransformerEncoder_forward_reindex _ _ _ _ _ _ _ _ B B N b b sigma
              Hall Hdp0 Hfdp0 Hd0 Hh Hd Hb Hb Hperm omega omega'
              x (permute_tokens sigma x) Hx Hx
              (permute_tokens_reindexed N E sigma b x))
    as (z & z' & Hz & Hz' & _ & _ & Hr).
  rewrite Hy in Hz. rewrite Hy' in Hz'.
  injection Hz as Hz. injection Hz' as Hz'. subst z z'.
  apply Hr; assumption.
Qed.

(** An instance of [X7_encoder_permutation_equivariant]. *)
Lemma X7_encoder_permutation_equivariant_witness :
  exists bs y y',
    TransformerEncoder.init act0 theta0 2 1 0 4 0 1 0 = Ok bs
    /\ TransformerEncoder.forward noise0 bs x0 = Ok y
    /\ TransformerEncoder.forward noise0 bs (permute_tokens swap01 x0) = Ok y'
    /\ forall b t e, b < 1 -> t < 2 -> e < 1 ->
         data y' [b; t; e] = data y [b; swap01 t; e].
Proof.
  eexists.
  destruct (X7_encoder_permutation_equivariant act0 noise0 noise0 theta0 2 1 0 4
              0 1 0 _ x0 1 2 swap01 eq_refl eq_refl eq_refl eq_refl ltac:(lia)
              eq_refl eq_refl permutes_swap01)
    as (y & y' & H1 & H2 & _ & _ & H3).
  exists y, y'. split; [reflexivity|]. auto.
Defined.

(** X8: the classification head does not see the order of the tokens: on a
    permuted sequence it returns the same logits. *)
Theorem X8_head_permutation_invariant theta E n x B N sigma :
  shape x = [B; N; E] ->
  permutes N sigma ->
  let head := ClassificationHead.init theta E n in
  exists out out',
    ClassificationHead.forward head x = Ok out
    /\ ClassificationHead.forward head (permute_tokens sigma x) = Ok out'
    /\ shape out = [B; n] /\ shape out' = [B; n]
    /\ forall b c, data out' [b; c] = data out [b; c].
Proof.
  intros Hx Hperm head.
  destruct (ClassificationHead_forward_ok theta E n x B N Hx)
    as (_ & _ & out & _ & _ & _ & _ & _ & _ & Hso & Hf).
  destruct (ClassificationHead_forward_ok theta E n (permute_tokens sigma x) B N Hx)
    as (_ & _ & out' & _ & _ & _ & _ & _ & _ & Hso' & Hf').
  exists out, out'. repeat split; try assumption.
  intros b c.
  destruct (ClassificationHead_forward_reindex theta E n x (permute_tokens sigma x)
              B B N b b sigma Hx Hx Hperm (permute_tokens_reindexed N E sigma b x))
    as (z & z' & Hz & Hz' & _ & _ & Hr).
  rewrite Hf in Hz. rewrite Hf' in Hz'.
  injection Hz as Hz. injection Hz' as Hz'. subst z z'. apply Hr.
Qed.

(** An instance of [X8_head_permutation_invariant]. *)
Lemma X8_head_permutation_invariant_witness :
  exists out out',
    ClassificationHead.forward (ClassificationHead.init theta0 1 1000) x0 = Ok out
    /\ ClassificationHead.forward (ClassificationHead.init theta0 1 1000)
         (permute_tokens swap01 x0) = Ok out'
    /\ forall b c, data out' [b; c] = data out [b; c].
Proof.
  destruct (X8_head_permutation_invariant theta0 1 1000 x0 1 2 swap01 eq_refl
              permutes_swap01) as (out & out' & H1 & H2 & _ & _ & H3).
  exists out, out'. auto.
Defined.

(** X9: in a model with all dropout rates 0, at least one input channel
    and one embedding dimension, the logits of an image depend on that image
    alone: the same image at any position of any two batches, in any two
    passes, gets the same logits. *)
Theorem X9_batch_items_independent gelu omega omega' theta (c : Config) m x x'
    B B' b b' :
  ViT.init gelu theta c = Ok m ->
  no_dropout c = true ->
  heads_ok c = true ->
  0 < in_channels c -> 0 < emb_size c ->
  patch_size c <= img_size c ->
  shape x = [B; in_channels c; img_size c; img_size c] ->
  shape x' = [B'; in_channels c; img_size c; img_size c] ->
  b < B -> b' < B' ->
  (forall ci r s, ci < in_channels c -> r < img_size c -> s < img_size c ->
                  data x' [b'; ci; r; s] = data x [b; ci; r; s]) ->
  exists out out',
    ViT.forward omega m x = Ok out
    /\ ViT.forward omega' m x' = Ok out'
    /\ shape out = [B; n_classes c] /\ shape out' = [B'; n_classes c]
    /\ forall k, data out' [b'; k] = data out [b; k].
Proof.
  intros Hm Hnd Hh HC HE HI Hx Hx' Hb Hb' Hpix.
  exact (ViT_forward_item _ omega omega' _ _ _ _ _ _ _ _ _ Hm Hnd Hh HC HE HI
           Hx Hx' Hb Hb' Hpix).
Qed.

(** An instance of [X9_batch_items_independent]: an image alone, and the
    same image as the second of two. *)
Lemma X9_batch_items_independent_witness :
  exists m out out',
    ViT.init act0 theta0 config_small = Ok m
    /\ ViT.forward noise0 m (zeros [2; 1; 1; 1]) = Ok out
    /\ ViT.forward noise0 m (zeros [1; 1; 1; 1]) = Ok out'
    /\ forall k, data out' [0; k] = data out [1; k].
Proof.
  eexists.
  destruct (X9_batch_items_independent act0 noise0 noise0 theta0 config_small _
              (zeros [2; 1; 1; 1]) (zeros [1; 1; 1; 1]) 2 1 1 0
              eq_refl eq_refl eq_refl ltac:(cbn; lia) ltac:(cbn; lia)
              ltac:(cbn; lia) eq_refl eq_refl
              ltac:(lia) ltac:(lia) ltac:(intros; reflexivity))
    as (out & out' & H1 & H2 & _ & _ & H3).
  exists out, out'. split; [reflexivity|]. auto.
Defined.

(** X10: in a tokenizer with at least one input channel and one embedding
    dimension, a patch token is a function of its own patch: two images
    with the same pixels in the patch of row i and column j have the same
    token at position 1 + i * (img_size // patch_size) + j. *)
Theorem X10_patch_token_local theta C P E I pe x x' B B' b b' i j :
  PatchEmbedding.init theta C P E I = Ok pe ->
  0 < C -> 0 < E ->
  P <= I ->
  shape x = [B; C; I; I] ->
  shape x' = [B'; C; I; I] ->
  i < I / P -> j < I / P ->
  (forall ci u v, ci < C -> u < P -> v < P ->
                  data x' [b'; ci; i * P + u; j * P + v]
                  = data x [b; ci; i * P + u; j * P + v]) ->
  exists y y',
    PatchEmbedding.forward pe x = Ok y
    /\ PatchEmbedding.forward pe x' = Ok y'
    /\ forall e, e < E ->
         data y' [b'; 1 + (i * (I / P) + j); e]
         = data y [b; 1 + (i * (I / P) + j); e].
Proof.
  intros Hpe HC HE HI Hx Hx' Hi Hj Hpix.
  destruct (PatchEmbedding_init_inv _ _ _ _ _ _ Hpe) as (_ & Hproj & _).
  destruct (PatchEmbedding_forward_configured _ _ _ _ _ _ x B Hpe HC HE HI Hx)
    as (y & Hy & _ & _ & Hdy).
  destruct (PatchEmbedding_forward_configured _ _ _ _ _ _ x' B' Hpe HC HE HI Hx')
    as (y' & Hy' & _ & _ & Hdy').
  exists y, y'. split; [exact Hy|]. split; [exact Hy'|].
  intros e He. rewrite Hdy, Hdy' by assumption. f_equal.
  apply patch_projection_item. rewrite Hproj.
  cbn [Conv2d.init Conv2d.in_channels Conv2d.kernel_size Conv2d.stride].
  exact Hpix.
Qed.

(** An instance of [X10_patch_token_local]: two images of 2 by 2 pixels that
    differ outside the patch at the top left. *)
Lemma X10_patch_token_local_witness :
  exists pe y y',
    PatchEmbedding.init theta0 1 1 1 2 = Ok pe
    /\ PatchEmbedding.forward pe (zeros [1; 1; 2; 2]) = Ok y
    /\ PatchEmbedding.forward pe
         (mkTensor [1; 1; 2; 2]
            (fun idx => match idx with
                        | [_; _; 0; 0] => 0%R
                        | _ => 1%R
                        end)) = Ok y'
    /\ forall e, e < 1 -> data y' [0; 1; e] = data y [0; 1; e].
Proof.
  eexists.
  destruct (X10_patch_token_local theta0 1 1 1 2 _ (zeros [1; 1; 2; 2])
              (mkTensor [1; 1; 2; 2]
                 (fun idx => match idx with
                             | [_; _; 0; 0] => 0%R
                             | _ => 1%R
                             end)) 1 1 0 0 0 0
              eq_refl ltac:(lia) ltac:(lia) ltac:(lia) eq_refl eq_refl
              ltac:(cbn; lia) ltac:(cbn; lia)
              ltac:(intros ci u v _ Hu Hv;
                    destruct u; [|lia]; destruct v; [|lia]; reflexivity))
    as (y & y' & H1 & H2 & H3).
  exists y, y'. split; [reflexivity|]. auto.
Defined.

(** A block whose dropout rates are not all rates is not constructed. *)
Lemma TransformerEncoderBlock_init_bad_rate gelu theta E dp k fdp h d :
  Dropout.valid_rate dp && Dropout.valid_rate fdp && Dropout.valid_rate d = false ->
  TransformerEncoderBlock.init gelu theta E dp k fdp h d = Err ValueError.
Proof.
  intros Hr.
  unfold TransformerEncoderBlock.init, MultiHeadAttention.init,
    FeedForwardBlock.init, Dropout.init.
  destruct (Dropout.valid_rate d); cbn [bind]; [|reflexivity].
  destruct (Dropout.valid_rate dp); cbn [bind]; [|reflexivity].
  destruct (Dropout.valid_rate fdp); cbn [bind]; [discriminate|reflexivity].
Qed.

(** X11: what construction checks.  A patch size 0 makes the size of the
    positional table divide by zero; with a positive patch size and at
    least one block, a dropout rate outside [0, 1] is a [ValueError]; in
    every other case the model is constructed, with [depth] blocks.  No
    other argument is looked at, and without blocks not even the rates. *)
Theorem X11_construction_outcomes gelu theta (c : Config) :
  (patch_size c = 0 -> ViT.init gelu theta c = Err ZeroDivisionError)
  /\ (0 < patch_size c -> 0 < depth c -> rates_ok c = false ->
      ViT.init gelu theta c = Err ValueError)
  /\ (0 < patch_size c -> depth c = 0 \/ rates_ok c = true ->
      exists m, ViT.init gelu theta c = Ok m
        /\ length (ViT.encoder m) = depth c).
Proof.
  split; [|split].
  - intros HP. unfold ViT.init, PatchEmbedding.init. rewrite HP. reflexivity.
  - intros HP Hdepth Hr. unfold ViT.init.
    rewrite PatchEmbedding_init_ok by exact HP. cbn [bind].
    unfold TransformerEncoder.init.
    destruct (depth c) as [|n]; [lia|]. cbn [TransformerEncoder.init_blocks].
    rewrite TransformerEncoderBlock_init_bad_rate by exact Hr. reflexivity.
  - intros HP [Hdepth | Hr].
    + unfold ViT.init. rewrite PatchEmbedding_init_ok by exact HP. cbn [bind].
      rewrite Hdepth. cbn [TransformerEncoder.init TransformerEncoder.init_blocks bind].
      eexists; split; reflexivity.
    + destruct (ViT_init_ok gelu theta c Hr HP) as (m & Hm).
      exists m. split; [exact Hm|].
      destruct (ViT_init_inv _ _ _ _ Hm) as (_ & Hlen & _). exact Hlen.
Qed.

(** An instance of [X11_construction_outcomes]. *)
Lemma X11_construction_outcomes_witness :
  exists m, ViT.init act0 theta0 default_config = Ok m
    /\ length (ViT.encoder m) = 12.
Proof.
  apply (proj2 (proj2 (X11_construction_outcomes act0 theta0 default_config))).
  - cbn; lia.
  - right. reflexivity.
Defined.

(** X12: a tokenizer configured with [img_size] smaller than [patch_size]
    has a positional table of one row; with at least one input channel and
    one embedding dimension, it accepts every image whose sides are at
    least [patch_size] and adds that one row to every token. *)
Theorem X12_single_positional_row theta C P E I pe x B H W :
  PatchEmbedding.init theta C P E I = Ok pe ->
  0 < C -> 0 < E ->
  I < P ->
  shape x = [B; C; H; W] ->
  P <= H -> P <= W ->
  shape (PatchEmbedding.positions pe) = [1; E]
  /\ exists y, PatchEmbedding.forward pe x = Ok y
       /\ shape y = [B; 1 + H / P * (W / P); E]
       /\ forall b t e, e < E ->
            data y [b; t; e]
            = ((if t <? 1 then data (PatchEmbedding.cls_token pe) [0%nat; t; e]
                else patch_projection (PatchEmbedding.projection pe) x b e
                       ((t - 1) / (W / P))%nat ((t - 1) mod (W / P))%nat)
               + data (PatchEmbedding.positions pe) [0%nat; e])%R.
Proof.
  intros Hpe HC HE HI Hx HH HW.
  destruct (PatchEmbedding_init_inv _ _ _ _ _ _ Hpe) as (HP & _ & _ & Hpos).
  assert (Hn : (I / P) ^ 2 + 1 = 1).
  { rewrite Nat.div_small by exact HI. reflexivity. }
  split; [rewrite Hpos, Hn; reflexivity|].
  pose proof (PatchEmbedding_forward_tokens _ _ _ _ _ _ x B _ _ Hpe HC HE
                HH HW Hx) as Htok.
  cbv zeta in Htok. rewrite Hn in Htok.
  rewrite Nat.eqb_refl, orb_true_r in Htok.
  destruct Htok as (y & Hy & Hsy & Hdy).
  exists y. split; [exact Hy|]. split; [exact Hsy|].
  intros b t e He. rewrite Hdy. f_equal.
  unfold bcast_index. cbn [length Nat.sub skipn bcast_dims Nat.eqb].
  destruct (Nat.eqb_spec E 1) as [->|_]; [|reflexivity].
  replace e with 0 by lia. reflexivity.
Qed.

(** An instance of [X12_single_positional_row]. *)
Lemma X12_single_positional_row_witness :
  exists pe y,
    PatchEmbedding.init theta0 3 16 4 8 = Ok pe
    /\ shape (PatchEmbedding.positions pe) = [1; 4]
    /\ PatchEmbedding.forward pe (zeros [1; 3; 32; 48]) = Ok y
    /\ shape y = [1; 1 + 32 / 16 * (48 / 16); 4].
Proof.
  eexists.
  destruct (X12_single_positional_row theta0 3 16 4 8 _ (zeros [1; 3; 32; 48])
              1 32 48 eq_refl ltac:(lia) ltac:(lia) ltac:(lia) eq_refl
              ltac:(lia) ltac:(lia))
    as (Hp & y & Hy & Hs & _).
  exists y. split; [reflexivity|]. auto.
Defined.

(** X13: with a sub-module that writes its result into a new tensor, the
    residual wrapper changes no tensor that was there before the call, its
    input included, and the tensor it returns holds what the wrapper computes
    on values. *)
Theorem X13_residual_add_out_of_place (f : Tensor R -> result (Tensor R))
    (h : heap) (x : ref) (vx v : Tensor R) :
  h !! x = Some vx ->
  ResidualAdd.forward (ResidualAdd.mk f) vx = Ok v ->
  exists h',
    ResidualAddRef.forward (ResidualAddRef.mk (ResidualAddRef.fresh f)) x h
    = Ok (length h, h')
    /\ h' !! length h = Some v
    /\ forall (r : ref) (u : Tensor R), h !! r = Some u -> h' !! r = Some u.
Proof.
  intros Hx Hv. pose proof (ResidualAddRef_fresh f h x vx Hx) as Hf.
  rewrite Hv in Hf. exists (h ++ [v]). split; [exact Hf|]. split.
  - rewrite lookup_app_r by lia. rewrite Nat.sub_diag. reflexivity.
  - intros r u Hr. rewrite lookup_app_l; [exact Hr|].
    eapply lookup_lt_Some, Hr.
Qed.

(** An instance of [X13_residual_add_out_of_place]. *)
Lemma X13_residual_add_out_of_place_witness :
  exists h',
    ResidualAddRef.forward
      (ResidualAddRef.mk (ResidualAddRef.fresh (fun t => Ok t))) 0 [x0]
    = Ok (1, h')
    /\ h' !! 0 = Some x0.
Proof.
  destruct (X13_residual_add_out_of_place (fun t => Ok t) [x0] 0 x0
              (mkTensor (shape x0)
                 (fun idx => (data x0 idx
                              + data x0 (bcast_index (shape x0) idx))%R))
              eq_refl eq_refl) as (h' & Hf & _ & Hold).
  exists h'. split; [exact Hf|]. apply Hold. reflexivity.
Defined.

(** X14: with all dropout rates 0, the encoder stack followed by the
    classification head does not see the order of the tokens: on a permuted
    sequence the logits are the same. *)
Theorem X14_encoder_head_order_blind gelu omega omega' theta depth E dp k fdp h
    d bs theta' n x B N sigma :
  TransformerEncoder.init gelu theta depth E dp k fdp h d = Ok bs ->
  Qeq_bool dp 0 = true -> Qeq_bool fdp 0 = true -> Qeq_bool d 0 = true ->
  0 < h -> E mod h = 0 ->
  shape x = [B; N; E] ->
  permutes N sigma ->
  let head := ClassificationHead.init theta' E n in
  exists y y' out out',
    TransformerEncoder.forward omega bs x = Ok y
    /\ TransformerEncoder.forward omega' bs (permute_tokens sigma x) = Ok y'
    /\ ClassificationHead.forward head y = Ok out
    /\ ClassificationHead.forward head y' = Ok out'
    /\ shape out = [B; n] /\ shape out' = [B; n]
    /\ forall b c, b < B -> data out' [b; c] = data out [b; c].
Proof.
  intros Hbs Hdp0 Hfdp0 Hd0 Hh Hd Hx Hperm head.
  destruct (TransformerEncoder_init_built _ _ _ _ _ _ _ _ _ _ Hbs) as (_ & Hall).
  destruct (TransformerEncoder_forward_shape _ _ _ _ _ _ _ _ Hall Hh Hd
              omega x B N Hx) as (y & Hy & Hsy).
  destruct (TransformerEncoder_forward_shape _ _ _ _ _ _ _ _ Hall Hh Hd
              omega' (permute_tokens sigma x) B N Hx) as (y' & Hy' & Hsy').
  destruct (ClassificationHead_forward_ok theta' E n y B N Hsy)
    as (_ & _ & out & _ & _ & _ & _ & _ & _ & Hso & Hf).
  destruct (ClassificationHead_forward_ok theta' E n y' B N Hsy')
    as (_ & _ & out' & _ & _ & _ & _ & _ & _ & Hso' & Hf').
  exists y, y', out, out'. repeat split; try assumption.
  intros b c Hb.
  destruct (TransformerEncoder_forward_reindex _ _ _ _ _ _ _ _ B B N b b sigma
              Hall Hdp0 Hfdp0 Hd0 Hh Hd Hb Hb Hperm omega omega'
              x (permute_tokens sigma x) Hx Hx
              (permute_tokens_reindexed N E sigma b x))
    as (z & z' & Hz & Hz' & _ & _ & Hr).
  rewrite Hy in Hz. rewrite Hy' in Hz'.
  injection Hz as Hz. injection Hz' as Hz'. subst z z'.
  destruct (ClassificationHead_forward_reindex theta' E n y y' B B N b b sigma
              Hsy Hsy' Hperm Hr) as (o & o' & Ho & Ho' & _ & _ & Hout).
  rewrite Hf in Ho. rewrite Hf' in Ho'.
  injection Ho as Ho. injection Ho' as Ho'. subst o o'. apply Hout.
Qed.

(** An instance of [X14_encoder_head_order_blind]. *)
Lemma X14_encoder_head_order_blind_witness :
  exists bs y y' out out',
    TransformerEncoder.init act0 theta0 2 1 0 4 0 1 0 = Ok bs
    /\ TransformerEncoder.forward noise0 bs x0 = Ok y
    /\ TransformerEncoder.forward noise0 bs (permute_tokens swap01 x0) = Ok y'
    /\ ClassificationHead.forward (ClassificationHead.init theta0 1 3) y = Ok out
    /\ ClassificationHead.forward (ClassificationHead.init theta0 1 3) y' = Ok out'
    /\ forall b c, b < 1 -> data out' [b; c] = data out [b; c].
Proof.
  eexists.
  destruct (X14_encoder_head_order_blind act0 noise0 noise0 theta0 2 1 0 4 0 1 0
              _ theta0 3 x0 1 2 swap01 eq_refl eq_refl eq_refl eq_refl
              ltac:(lia) eq_refl eq_refl permutes_swap01)
    as (y & y' & out & out' & H1 & H2 & H3 & H4 & _ & _ & H5).
  exists y, y', out, out'. split; [reflexivity|]. auto.
Defined.

(** X15: the model checks the resolution of an image by the number of its
    patches only.  With at least one input channel and one embedding
    dimension and a positional table of more than one row, an image whose
    sides are at least [patch_size] is accepted, and gets logits, if
    (H // patch_size) * (W // patch_size) is (img_size // patch_size)^2, be
    it square or not; otherwise the addition of the positional table
    fails. *)
Theorem X15_resolution_checked_by_patch_count gelu omega theta (c : Config) m x
    B H W :
  ViT.init gelu theta c = Ok m ->
  heads_ok c = true ->
  0 < in_channels c -> 0 < emb_size c ->
  patch_size c <= img_size c ->
  patch_size c <= H -> patch_size c <= W ->
  shape x = [B; in_channels c; H; W] ->
  (H / patch_size c * (W / patch_size c) = (img_size c / patch_size c) ^ 2 ->
   exists out, ViT.forward omega m x = Ok out /\ shape out = [B; n_classes c])
  /\ (H / patch_size c * (W / patch_size c) <> (img_size c / patch_size c) ^ 2 ->
      ViT.forward omega m x = Err RuntimeError).
Proof.
  intros Hm Hh HC HE HI HH HW Hx. unfold heads_ok in Hh.
  apply andb_prop in Hh as (Hh & Hd).
  apply Nat.ltb_lt in Hh. apply Nat.eqb_eq in Hd.
  destruct (ViT_init_inv _ _ _ _ Hm) as (Hpe & _ & Hall & Hhead).
  destruct (PatchEmbedding_init_inv _ _ _ _ _ _ Hpe) as (HP & _).
  pose proof (PatchEmbedding_forward_tokens _ _ _ _ _ _ x B _ _ Hpe HC HE
                HH HW Hx) as Htok.
  cbv zeta in Htok.
  assert (Hq : 0 < img_size c / patch_size c) by (apply Nat.div_str_pos; lia).
  assert (Hn1 : ((img_size c / patch_size c) ^ 2 + 1 =? 1) = false).
  { apply Nat.eqb_neq. cbn [Nat.pow]. nia. }
  rewrite Hn1, orb_false_r in Htok.
  split.
  - intros Heq.
    assert (Hb : ((img_size c / patch_size c) ^ 2 + 1
                  =? 1 + H / patch_size c * (W / patch_size c)) = true)
      by (apply Nat.eqb_eq; lia).
    rewrite Hb in Htok. destruct Htok as (tokens & Ht & Hst & _).
    unfold ViT.forward. rewrite Ht, Hhead. cbn [bind].
    destruct (TransformerEncoder_forward_shape _ _ _ _ _ _ _ _ Hall Hh Hd
                omega tokens _ _ Hst) as (y & -> & Hy).
    cbn [bind].
    destruct (ClassificationHead_forward_ok
                (shift (4 + 12 * depth c) theta) (emb_size c) (n_classes c)
                y _ _ Hy) as (_ & _ & out & _ & _ & _ & _ & _ & _ & Hso & ->).
    cbn [bind]. exists out. split; [reflexivity|exact Hso].
  - intros Hne.
    assert (Hb : ((img_size c / patch_size c) ^ 2 + 1
                  =? 1 + H / patch_size c * (W / patch_size c)) = false)
      by (apply Nat.eqb_neq; lia).
    rewrite Hb in Htok. unfold ViT.forward. rewrite Htok. reflexivity.
Qed.

(** An instance of [X15_resolution_checked_by_patch_count]: the default
    model on an image of 112 by 448 pixels. *)
Lemma X15_resolution_checked_by_patch_count_witness :
  exists m out,
    ViT.init act0 theta0 default_config = Ok m
    /\ ViT.forward noise0 m (zeros [1; 3; 112; 448]) = Ok out
    /\ shape out = [1; 1000].
Proof.
  eexists.
  destruct (proj1 (X15_resolution_checked_by_patch_count act0 noise0 theta0
                     default_config _ (zeros [1; 3; 112; 448]) 1 112 448
                     eq_refl eq_refl ltac:(cbn; lia) ltac:(cbn; lia)
                     ltac:(cbn; lia) ltac:(cbn; lia)
                     ltac:(cbn; lia) eq_refl) eq_refl)
    as (out & Ho & Hs).
  exists out. split; [reflexivity|]. split; assumption.
Defined.
